(** * KMRL document summarizer: section-aware summarization pipeline

    A shallow embedding of [app/scripts/document_summarizer.py]: text
    extraction dispatch, the heading/paragraph section splitter, the
    per-section summarizer with its retry loop and credential fallback, the
    final merge pass, and the process-wide credential cursor; and of the
    web layer [app/main.py]: the database wrappers and the upload, ingestion
    and download endpoints.

    Conventions of the embedding.
    - A Python [str] is a list of Unicode code points ([N]).
    - [int] arguments are [Z]; [range(retries)] runs [Z.to_nat retries] times.
    - Code that talks to the outside world runs in the monad [M]: a state
      ([world]) is threaded through every call and a computation either
      returns a value or raises a Python exception.  [try/except Exception]
      is [try_except].
    - The generative service is an arbitrary function [service] of the number
      of calls made so far, the active credential and the prompt; it answers
      with a response object or raises.
    - [print] writes to the standard output [console], which takes the text
      or raises, as a function of what was written before; [time.sleep] is
      the platform's [clock], which sleeps or raises.
    - [str.lower] off ASCII is the case mapping of the interpreter's Unicode
      database, [unicode_lower]. *)

From Stdlib Require Import List NArith ZArith Bool String Ascii Lia.
From Stdlib Require Import DecimalString.
Import ListNotations.

Local Open Scope N_scope.

(** ** Python strings *)

Definition char := N.
Definition str := list char.

Definition NL : char := 10.
Definition COLON : char := 58.
Definition DQUOTE : char := 34.

(** Bytes of a UTF-8 encoded literal to code points.  [need] continuation
    bytes are still expected for the code point accumulated in [acc]. *)
Fixpoint utf8_decode (bs : list N) (need : nat) (acc : N) : str :=
  match bs with
  | [] => []
  | b :: bs' =>
      match need with
      | O =>
          if b <? 128 then b :: utf8_decode bs' 0 0
          else if b <? 224 then utf8_decode bs' 1 (b - 192)
          else if b <? 240 then utf8_decode bs' 2 (b - 224)
          else utf8_decode bs' 3 (b - 240)
      | S k =>
          let acc' := acc * 64 + (b - 128) in
          match k with
          | O => acc' :: utf8_decode bs' 0 0
          | S _ => utf8_decode bs' k acc'
          end
      end
  end.

(** The escape [\n] of a Python literal. *)
Fixpoint unescape (s : str) : str :=
  match s with
  | 92 :: 110 :: s' => NL :: unescape s'
  | c :: s' => c :: unescape s'
  | [] => []
  end.

(** A Python string literal, written as a Rocq string. *)
Definition lit (s : string) : str :=
  unescape (utf8_decode (map N_of_ascii (list_ascii_of_string s)) 0 0).

Definition str_eqb (a b : str) : bool :=
  if list_eq_dec N.eq_dec a b then true else false.

(** Truthiness of a str: non-empty. *)
Definition truthy (s : str) : bool :=
  match s with [] => false | _ :: _ => true end.

(** [str.isspace] on one code point (CPython's [_PyUnicode_IsWhitespace]);
    the same set is [\s] of [re] on str patterns and what [strip] and
    [split] without argument remove. *)
Definition isspace (c : char) : bool :=
  ((9 <=? c) && (c <=? 13)) || ((28 <=? c) && (c <=? 32))
  || (c =? 133) || (c =? 160) || (c =? 5760)
  || ((8192 <=? c) && (c <=? 8202))
  || (c =? 8232) || (c =? 8233) || (c =? 8239) || (c =? 8287) || (c =? 12288).

(** [[A-Z]] *)
Definition is_upper (c : char) : bool := (65 <=? c) && (c <=? 90).

Fixpoint lstrip (s : str) : str :=
  match s with
  | c :: s' => if isspace c then lstrip s' else s
  | [] => []
  end.

Definition rstrip (s : str) : str := rev (lstrip (rev s)).

(** [s.strip()] *)
Definition strip (s : str) : str := rstrip (lstrip s).

(** [s.split()]: the maximal runs of non-whitespace; [cur] is the word
    being read, reversed. *)
Fixpoint split_ws (s : str) (cur : str) : list str :=
  match s with
  | [] => if truthy cur then [rev cur] else []
  | c :: s' =>
      if isspace c
      then (if truthy cur then rev cur :: split_ws s' [] else split_ws s' [])
      else split_ws s' (c :: cur)
  end.

Definition str_split (s : str) : list str := split_ws s [].

(** [sep.join(parts)] *)
Fixpoint join (sep : str) (parts : list str) : str :=
  match parts with
  | [] => []
  | [p] => p
  | p :: rest => p ++ sep ++ join sep rest
  end.

(** [s.startswith(p)] *)
Fixpoint startswith (p s : str) : bool :=
  match p, s with
  | [], _ => true
  | a :: p', b :: s' => (a =? b) && startswith p' s'
  | _ :: _, [] => false
  end.

(** [needle in hay] *)
Fixpoint contains (needle hay : str) : bool :=
  startswith needle hay ||
  match hay with
  | [] => false
  | _ :: hay' => contains needle hay'
  end.

(** [s.lower()].  On a str of ASCII characters the letters A to Z are
    lowered; any other str goes through the case mapping of the
    interpreter's Unicode database, which differs from one version of the
    interpreter to the next and is the parameter [unicode_lower]. *)
Definition is_ascii (c : char) : bool := c <? 128.
Definition lower_char (c : char) : char := if is_upper c then c + 32 else c.
Definition lower (unicode_lower : str -> str) (s : str) : str :=
  if forallb is_ascii s then map lower_char s else unicode_lower s.

(** [s.split(sep)] for a non-empty separator: cut at the occurrences of
    [sep] found from left to right; [cur] is the piece being read, reversed,
    and [skip] counts the characters of a separator still to be dropped. *)
Fixpoint split_sep (sep : str) (s : str) (skip : nat) (cur : str) : list str :=
  match s with
  | [] => [rev cur]
  | c :: s' =>
      match skip with
      | S k => split_sep sep s' k cur
      | O =>
          if startswith sep s
          then rev cur :: split_sep sep s' (Nat.pred (List.length sep)) []
          else split_sep sep s' 0 (c :: cur)
      end
  end.

(** [str(n)] for a natural number. *)
Definition str_of_nat (n : nat) : str :=
  lit (NilEmpty.string_of_uint (Nat.to_uint n)).

(** [str(z)] for an int. *)
Definition str_of_Z (z : Z) : str :=
  lit (NilEmpty.string_of_int (Z.to_int z)).

(** [enumerate(l)], counting from [i]. *)
Fixpoint enumerate {A} (i : nat) (l : list A) : list (nat * A) :=
  match l with
  | [] => []
  | x :: l' => (i, x) :: enumerate (S i) l'
  end.

(** ** The heading pattern

    [re.compile(r'(^[A-Z][A-Z\s]{2,}:?$)', re.MULTILINE)]: the matcher below
    follows the backtracking order of [re] for this pattern.  Under
    [re.MULTILINE], [^] holds at the start of the string and after each
    newline, and [$] at the end of the string and before each newline. *)

(** [[A-Z\s]] *)
Definition in_class (c : char) : bool := is_upper c || isspace c.

(** [$] in front of the remaining input. *)
Definition at_eol (rest : str) : bool :=
  match rest with
  | [] => true
  | c :: _ => c =? NL
  end.

(** [:?$] in front of the remaining input: the number of characters
    taken.  The optional colon is greedy: taken first, given up if [$]
    fails behind it. *)
Definition match_tail (rest : str) : option nat :=
  match rest with
  | c :: rest' =>
      if (c =? COLON) && at_eol rest' then Some 1%nat
      else if at_eol rest then Some 0%nat
      else None
  | [] => Some 0%nat
  end.

(** [[A-Z\s]{2,}:?$] after [taken] characters of the repetition: the number
    of characters of the whole match of this part.  Greedy: one more
    character of the class is tried first; the repetition stops here only if
    that fails and at least two characters were taken. *)
Fixpoint match_class (s : str) (taken : nat) : option nat :=
  let finish :=
    if (2 <=? taken)%nat
    then option_map (Nat.add taken) (match_tail s)
    else None in
  match s with
  | c :: s' =>
      if in_class c
      then match match_class s' (S taken) with
           | Some n => Some n
           | None => finish
           end
      else finish
  | [] => finish
  end.

(** The pattern at a position where [^] holds: the length of the match. *)
Definition match_here (s : str) : option nat :=
  match s with
  | c :: s' => if is_upper c then option_map S (match_class s' 0) else None
  | [] => None
  end.

(** Truthiness of [pattern.match(s)]: a match at position 0. *)
Definition pattern_match (s : str) : bool :=
  match match_here s with Some _ => true | None => false end.

(** Whether [^] holds behind the text [m] just consumed. *)
Definition ends_line (m : str) : bool :=
  match rev m with
  | c :: _ => c =? NL
  | [] => false
  end.

(** [pattern.split(text)] from a position inside the text: [bol] says
    whether [^] holds here, [cur] is the text since the last match, reversed.
    Each match closes the current piece and is itself the next piece (the
    pattern is one capture group); the search goes on behind the match. *)
Fixpoint split_from (fuel : nat) (bol : bool) (s : str) (cur : str) : list str :=
  match fuel with
  | O => [rev cur ++ s]
  | S fuel' =>
      match s with
      | [] => [rev cur]
      | c :: s' =>
          match (if bol then match_here s else None) with
          | Some n =>
              rev cur :: firstn n s
                :: split_from fuel' (ends_line (firstn n s)) (skipn n s) []
          | None => split_from fuel' (c =? NL) s' (c :: cur)
          end
      end
  end.

(** [pattern.split(text)]; every step consumes a character, so the fuel is
    never used up. *)
Definition pattern_split (text : str) : list str :=
  split_from (S (List.length text)) true text [].

(** ** Hybrid section detection *)

Definition section := (str * str)%type.

(** [if buffer: sections.append((current_heading, buffer.strip()))] *)
Definition flush (current_heading buffer : str) (sections : list section)
  : list section :=
  if truthy buffer
  then sections ++ [(current_heading, strip buffer)]
  else sections.

(** One round of the loop over [splits]; the state is
    [(current_heading, buffer, sections)]. *)
Definition split_step (st : str * str * list section) (part : str)
  : str * str * list section :=
  let '(current_heading, buffer, sections) := st in
  let part := strip part in
  if pattern_match part
  then (part, [], flush current_heading buffer sections)
  else (current_heading, buffer ++ part ++ [NL], sections).

(** The [else] branch: blank-line-delimited paragraphs, numbered. *)
Definition paragraph_sections (text : str) : list section :=
  let raw_sections := split_sep (lit "\n\n") text 0 [] in
  map (fun '(i, sec) => (lit "Section " ++ str_of_nat (i + 1), strip sec))
      (enumerate 0 raw_sections).

(** The branch [if splits:] is taken when the list is not empty. *)
Definition split_into_sections (text : str) : list section :=
  let splits := pattern_split text in
  match splits with
  | _ :: _ =>
      let '(current_heading, buffer, sections) :=
        fold_left split_step splits (lit "Introduction", [], []) in
      flush current_heading buffer sections
  | [] => paragraph_sections text
  end.

(** ** Exceptions, the world, and the monad of effects *)

(** A raised Python exception with its [str(e)]: one of the classes the
    program or its libraries name, or any other class derived from
    [Exception].  The program tells them apart by their text only. *)
Inductive exn : Type :=
| ValueError (msg : str)
| UnicodeEncodeError (msg : str)
| OverflowError (msg : str)
| Exception (msg : str).

Definition exn_str (e : exn) : str :=
  match e with
  | ValueError msg => msg
  | UnicodeEncodeError msg => msg
  | OverflowError msg => msg
  | Exception msg => msg
  end.

Inductive result (A : Type) : Type :=
| Return (a : A)
| Raise (e : exn).

Arguments Return {A} a.
Arguments Raise {A} e.

(** What the program reads of a generation response:
    [response.candidates[i].content.parts[j].text]; [None] when the
    response has no attribute [candidates]. *)
Record candidate : Type := Candidate { content_parts : list str }.
Record response : Type := Response { candidates : option (list candidate) }.

(** One call of the generative service: a response, or an exception. *)
Inductive outcome : Type :=
| Responds (r : response)
| Fails (e : exn).

(** The process state the program touches: the credential cursor
    [current_key_index]; the credential the model object [gemini_model] was
    built with; the generation calls made so far (credential index and
    prompt, latest first); the delays slept (latest first); the texts
    written to the standard output (latest first). *)
Record world : Type := World {
  current_key_index : nat;
  gemini_model : nat;
  call_log : list (nat * str);
  sleep_log : list Z;
  print_log : list str
}.

Definition M (A : Type) : Type := world -> result A * world.

Definition ret {A} (a : A) : M A := fun w => (Return a, w).

Definition bind {A B} (m : M A) (k : A -> M B) : M B :=
  fun w =>
    match m w with
    | (Return a, w') => k a w'
    | (Raise e, w') => (Raise e, w')
    end.

(** [try: body / except Exception as e: handler] *)
Definition try_except {A} (body : M A) (handler : exn -> M A) : M A :=
  fun w =>
    match body w with
    | (Return a, w') => (Return a, w')
    | (Raise e, w') => handler e w'
    end.

(** A computation that does not touch the world. *)
Definition lift {A} (r : result A) : M A := fun w => (r, w).

Notation "x <- m ;; k" := (bind m (fun x => k))
  (at level 61, m at next level, right associativity).
Notation "m ;;; k" := (bind m (fun _ => k))
  (at level 61, right associativity).

(** The world after one more call, sleep or text written, and after the
    cursor or the model object was set. *)
Definition called (c : nat * str) (w : world) : world :=
  {| current_key_index := current_key_index w;
     gemini_model := gemini_model w;
     call_log := c :: call_log w;
     sleep_log := sleep_log w;
     print_log := print_log w |}.

Definition slept (secs : Z) (w : world) : world :=
  {| current_key_index := current_key_index w;
     gemini_model := gemini_model w;
     call_log := call_log w;
     sleep_log := secs :: sleep_log w;
     print_log := print_log w |}.

Definition printed (text : str) (w : world) : world :=
  {| current_key_index := current_key_index w;
     gemini_model := gemini_model w;
     call_log := call_log w;
     sleep_log := sleep_log w;
     print_log := text :: print_log w |}.

Definition with_cursor (k : nat) (w : world) : world :=
  {| current_key_index := k;
     gemini_model := gemini_model w;
     call_log := call_log w;
     sleep_log := sleep_log w;
     print_log := print_log w |}.

Definition with_model (k : nat) (w : world) : world :=
  {| current_key_index := current_key_index w;
     gemini_model := k;
     call_log := call_log w;
     sleep_log := sleep_log w;
     print_log := print_log w |}.

(** ** Credentials *)

(** The primary credential and its two fallbacks.  The program uses the
    length of the list and the position of the cursor; the credential
    strings themselves are not reproduced here. *)
Definition GEMINI_API_KEYS : list str :=
  [lit "<primary>"; lit "<fallback 1>"; lit "<fallback 2>"].

(** The state at process start: [current_key_index = 0], the model object
    built with the credential at 0, nothing called, slept or written. *)
Definition initial_world : world :=
  {| current_key_index := 0; gemini_model := 0;
     call_log := []; sleep_log := []; print_log := [] |}.

(** The text the program takes from a response: the first part of the
    first candidate, stripped; empty when there is none. *)
Definition response_text (r : response) : str :=
  match candidates r with
  | Some (candidate :: _) =>
      match content_parts candidate with
      | text :: _ => strip text
      | [] => []
      end
  | _ => []
  end.

(** What [summarize_section] returns when its rounds are used up. *)
Definition SUMMARY_FAILED : str := lit "⚠ Summary failed after retries.".

(** The fixed text of the two prompts, up to the place of their data. *)
Definition prompt_head : str :=
  lit "
You are an expert summarizer with domain knowledge across HR, legal, technical, and business documents. 
Your task is to generate a clear, professional, and structured summary of the given document or section. 

Guidelines:
- Identify and highlight the most important information: key points, responsibilities, actions, deadlines, 
  decisions, or achievements.
- Use concise bullet points where appropriate, but also provide short cohesive paragraphs for context.
- Adapt writing style based on the content type:
  • Resume → emphasize skills, experience, and accomplishments. 
  • HR/Policy → highlight policies, roles, procedures, compliance details, and responsibilities.
  • Technical → capture processes, methods, results, limitations, and recommendations.
  • General/Business → focus on goals, outcomes, benefits, and next steps.
- Do not invent or assume facts that are not explicitly stated in the text.
- Preserve the logical flow of the original content but remove redundancy and filler.
- Keep the summary professional, precise, and easy to read for stakeholders.

Document/Section content:
".

Definition final_prompt_head : str :=
  lit "
You are an expert summarizer with strong domain knowledge across HR, legal, technical, 
business, and professional documents. Your task is to generate a cohesive, professional, 
and highly detailed final summary of the entire document based on the section-wise summaries provided. 

⚠ Important Handling:
- If any section contains an error message such as "
  ++ [DQUOTE] ++ lit "⚠ Summary failed after retries."
  ++ [DQUOTE] ++ lit " 
  or incomplete text, ignore that section completely in the final summary. 
- Only use valid and meaningful content.

Word Count Requirements:
- HR-related documents → Aim for ~4000 words.
- Resume-related documents → Aim for ~2000 words.
- Business or general corporate documents → Aim for ~5000 words.
- If document type is unclear → Default to ~200 words.

Guidelines for the Final Summary:
- Carefully read all section summaries and preserve their logical order and flow.
- Consolidate overlapping information and eliminate trivial or repetitive details.
- Highlight essential elements such as key points, responsibilities, actions, 
  deadlines, incentives, inclusions, exclusions, claim limits, benefits, 
  preventive care, and strategic insights (if relevant).
- Structure the output in a professional and readable format:
  • Use concise bullet points for actionable items, responsibilities, or conditions.
  • Use short, well-structured paragraphs for context, background, and takeaways.
- Maintain a professional, precise, and stakeholder-friendly tone, 
  as if writing an official report or executive-level summary.
- Adapt language naturally to the type of document (HR policy, resume, 
  business strategy, technical manual, or general policy).
- Do not fabricate or assume facts beyond the provided content; 
  if assumptions must be noted, explicitly label them as "
  ++ [DQUOTE] ++ lit "Assumptions"
  ++ [DQUOTE] ++ lit ".
- Ensure the result is cohesive, comprehensive, and aligned with the required word count.

Section-wise summaries (cleaned input):
".

(** The f-string [prompt] of [summarize_section]. *)
Definition prompt (section_text : str) : str :=
  prompt_head ++ section_text ++ [NL].

(** The f-string [final_prompt] of [summarize_text_by_sections]. *)
Definition final_prompt (merged_summary : str) : str :=
  final_prompt_head ++ merged_summary ++ [NL].

(** The texts the program prints. *)

(** [f"🔑 Switching to fallback API key #{current_key_index + 1}"] *)
Definition switching_message (cursor : nat) : str :=
  lit "🔑 Switching to fallback API key #" ++ str_of_nat (cursor + 1).

(** [f"⚠ LLM returned empty summary. Retrying {attempt+1}/{retries}..."] *)
Definition retrying_message (attempt : nat) (retries : Z) : str :=
  lit "⚠ LLM returned empty summary. Retrying " ++ str_of_nat (attempt + 1)
  ++ lit "/" ++ str_of_Z retries ++ lit "...".

(** [f"❌ Error in summarize_section: {e}"] *)
Definition section_error_message (e : exn) : str :=
  lit "❌ Error in summarize_section: " ++ exn_str e.

(** [f"📝 Summarizing section: {heading}"] *)
Definition section_message (heading : str) : str :=
  lit "📝 Summarizing section: " ++ heading.

(** [f"❌ Final merge summarization failed: {e}"] *)
Definition merge_error_message (e : exn) : str :=
  lit "❌ Final merge summarization failed: " ++ exn_str e.

(** How one round of the retry loop ends. *)
Inductive flow : Type :=
| Returned (summary : str)
| Continue
| Sleep.

Section Pipeline.

(** The generative service behind [gemini_model.generate_content]: its
    answer to the call number [n] (calls made before), made with the
    credential at index [k], for a prompt. *)
Variable service : nat -> nat -> str -> outcome.

(** The case mapping behind [str.lower] off ASCII. *)
Variable unicode_lower : str -> str.

(** The standard output behind [print]: given the texts written so far
    (latest first) and a text, it takes the text or raises (a
    [UnicodeEncodeError] where its encoding has no place for a character
    of the text, or whatever else writing to it raises). *)
Variable console : list str -> str -> option exn.

(** The platform behind [time.sleep] for a length that is negative or
    above 4294967 seconds: given the delays slept so far and the length, it
    sleeps or raises ([ValueError] for a negative length, [OverflowError]
    or [OSError] for one that is too long for it). *)
Variable clock : list Z -> Z -> option exn.

(** The libraries behind the readers: [os.path.splitext], the text layers
    of the pages of [fitz.open(path)], the texts of the paragraphs of
    [docx.Document(path)], and [open(path, "r", encoding="utf-8").read()];
    each of the last three may raise. *)
Variable splitext : str -> str * str.
Variable fitz_open : str -> result (list str).
Variable docx_Document : str -> result (list str).
Variable open_read : str -> result str.

(** [print(text)] *)
Definition print (text : str) : M unit :=
  fun w =>
    match console (print_log w) text with
    | Some e => (Raise e, w)
    | None => (Return tt, printed text w)
    end.

(** [time.sleep(secs)].  A length from 0 to 4294967 seconds is slept on
    every platform (the shortest limit a platform has is a count of
    milliseconds of 32 bits); any other length is up to the platform. *)
Definition time_sleep (secs : Z) : M unit :=
  fun w =>
    if ((0 <=? secs) && (secs <=? 4294967))%Z
    then (Return tt, slept secs w)
    else
      match clock (sleep_log w) secs with
      | Some e => (Raise e, w)
      | None => (Return tt, slept secs w)
      end.

(** *** File reading utilities *)

Definition read_pdf (path : str) : result str :=
  match fitz_open path with
  | Return pages =>
      Return (fold_left (fun text page => text ++ page ++ [NL]) pages [])
  | Raise e => Raise e
  end.

Definition read_docx (path : str) : result str :=
  match docx_Document path with
  | Return paragraphs =>
      Return (join [NL] (filter (fun p => truthy (strip p)) paragraphs))
  | Raise e => Raise e
  end.

Definition read_txt (path : str) : result str := open_read path.

Definition read_document (path : str) : result str :=
  let ext := lower unicode_lower (snd (splitext path)) in
  if str_eqb ext (lit ".pdf") then read_pdf path
  else if str_eqb ext (lit ".docx") || str_eqb ext (lit ".doc") then read_docx path
  else if str_eqb ext (lit ".txt") then read_txt path
  else Raise (ValueError (lit "Unsupported file type: " ++ ext)).

(** *** Summarization with retry and credential fallback *)

(** The cursor moves first; then the switch is announced; then the
    library is configured with the credential at the cursor and the model
    object is built anew.  An announcement that raises leaves the cursor
    moved and the model object as it was. *)
Definition switch_to_next_key : M bool :=
  fun w =>
    if (current_key_index w + 1 <? List.length GEMINI_API_KEYS)%nat
    then
      (let w1 := with_cursor (current_key_index w + 1) w in
       (print (switching_message (current_key_index w1)) ;;;
        (fun w2 => (Return true, with_model (current_key_index w2) w2))) w1)
    else (Return false, w).

(** [gemini_model.generate_content(...)]: the call is logged with the
    credential the model object was built with, then answers as the
    service does. *)
Definition generate_content (prompt : str) : M response :=
  fun w =>
    let w' := called (gemini_model w, prompt) w in
    match service (List.length (call_log w)) (gemini_model w) prompt with
    | Responds r => (Return r, w')
    | Fails e => (Raise e, w')
    end.

(** The body of [for attempt in range(retries)] up to [time.sleep]. *)
Definition attempt (prompt : str) (attempt_no : nat) (retries : Z) : M flow :=
  try_except
    (response <- generate_content prompt ;;
     let summary := response_text response in
     if truthy summary then ret (Returned summary)
     else print (retrying_message attempt_no retries) ;;; ret Sleep)
    (fun e =>
       switched <- (if contains (lit "quota") (lower unicode_lower (exn_str e))
                    then switch_to_next_key else ret false) ;;
       if switched then ret Continue
       else print (section_error_message e) ;;; ret Sleep).

(** The retry loop over the rounds of [range(retries)] still to run. *)
Fixpoint attempts (prompt : str) (retries : Z) (rounds : list nat) (delay : Z)
  : M str :=
  match rounds with
  | [] => ret SUMMARY_FAILED
  | attempt_no :: rounds' =>
      f <- attempt prompt attempt_no retries ;;
      match f with
      | Returned summary => ret summary
      | Continue => attempts prompt retries rounds' delay
      | Sleep => time_sleep delay ;;; attempts prompt retries rounds' delay
      end
  end.

Definition summarize_section (section_text : str) (retries delay : Z) : M str :=
  if (List.length (str_split (strip section_text)) <? 10)%nat then ret []
  else attempts (prompt section_text) retries (seq 0 (Z.to_nat retries)) delay.

(** *** Section-aware summarization *)

(** The loop over the sections: the labeled blocks [section_summaries]. *)
Fixpoint summarize_each (sections : list section) : M (list str) :=
  match sections with
  | [] => ret []
  | (heading, content) :: rest =>
      print (section_message heading) ;;;
      summary <- summarize_section content 3 5 ;;
      blocks <- summarize_each rest ;;
      ret ((lit "## " ++ heading ++ [NL] ++ summary ++ [NL]) :: blocks)
  end.

(** The final merge request: its text when usable. *)
Definition merge_call (final_prompt : str) : M (option str) :=
  try_except
    (final_response <- generate_content final_prompt ;;
     let final_summary := response_text final_response in
     if truthy final_summary then ret (Some final_summary) else ret None)
    (fun e => print (merge_error_message e) ;;; ret None).

Definition summarize_text_by_sections (text : str) : M str :=
  let sections := split_into_sections text in
  section_summaries <- summarize_each sections ;;
  let merged_summary := join [NL] section_summaries in
  final <- merge_call (final_prompt merged_summary) ;;
  match final with
  | Some final_summary => ret final_summary
  | None => ret merged_summary
  end.

Definition summarize_document (path : str) : M str :=
  text <- lift (read_document path) ;;
  summarize_text_by_sections text.

End Pipeline.

(** ** Notions used by the statements *)

(** The number of generation calls made so far. *)
Definition calls (w : world) : nat := List.length (call_log w).

(** A successful response with empty or missing generated text. *)
Definition empty_answer (o : outcome) : bool :=
  match o with
  | Responds r => negb (truthy (response_text r))
  | Fails _ => false
  end.

(** A call that raised, or answered with empty or missing text. *)
Definition unusable (o : outcome) : bool :=
  match o with
  | Responds r => negb (truthy (response_text r))
  | Fails _ => true
  end.

(** A call that raised an error whose message indicates a quota condition. *)
Definition quota_error (unicode_lower : str -> str) (o : outcome) : bool :=
  match o with
  | Responds _ => false
  | Fails e => contains (lit "quota") (lower unicode_lower (exn_str e))
  end.

(** A standard output that takes every text, whatever was written before. *)
Definition accepts (console : list str -> str -> option exn) : Prop :=
  forall written text, console written text = None.

(** A standard output that takes every announcement of an empty answer
    in a retry loop of [retries] rounds. *)
Definition takes_retries (console : list str -> str -> option exn)
    (retries : Z) : Prop :=
  forall written attempt_no,
    console written (retrying_message attempt_no retries) = None.

(** A text the standard output takes, whatever was written before. *)
Definition takes (console : list str -> str -> option exn) (text : str)
  : Prop :=
  forall written, console written text = None.

(** An exception the standard output raised for some text. *)
Definition refused (console : list str -> str -> option exn) (e : exn)
  : Prop :=
  exists written text, console written text = Some e.

(** A standard output that takes every announcement of a switch. *)
Definition announces (console : list str -> str -> option exn) : Prop :=
  forall written cursor, console written (switching_message cursor) = None.

(** A length of [secs] seconds is slept whenever asked: it is one every
    platform sleeps, or this platform does. *)
Definition sleeps (clock : list Z -> Z -> option exn) (secs : Z) : Prop :=
  (0 <= secs <= 4294967)%Z \/ forall before, clock before secs = None.

(** The model object is built with the credential at the cursor. *)
Definition synced (w : world) : Prop :=
  gemini_model w = current_key_index w.

(** A computation that never raises. *)
Definition returns {A} (m : M A) : Prop :=
  forall w, exists a w', m w = (Return a, w').

(** A computation that raises nothing but what the standard output
    raised. *)
Definition fails_at_print (console : list str -> str -> option exn) {A}
    (m : M A) : Prop :=
  forall w e w', m w = (Raise e, w') -> refused console e.

(** How a run may change the cursor, the model object and the call log:
    the cursor does not decrease and stays inside the pool, calls are only
    added, and, if the model object was at or behind the cursor, its
    credential does not decrease, it stays at or behind the cursor, and the
    calls of the run were made with credentials between its old and its new
    one. *)
Definition advances (w w' : world) : Prop :=
  (current_key_index w <= current_key_index w')%nat /\
  ((current_key_index w < List.length GEMINI_API_KEYS)%nat ->
   (current_key_index w' < List.length GEMINI_API_KEYS)%nat) /\
  exists new,
    call_log w' = new ++ call_log w /\
    ((gemini_model w <= current_key_index w)%nat ->
     (gemini_model w <= gemini_model w' <= current_key_index w')%nat /\
     Forall (fun c => (gemini_model w <= fst c <= gemini_model w')%nat) new).

(** A computation whose every run changes the cursor, the model object and
    the call log in this way only. *)
Definition keeps_cursor {A} (m : M A) : Prop :=
  forall w, advances w (snd (m w)).

(** A computation that leaves the model object built with the credential
    at the cursor if it was. *)
Definition keeps_sync {A} (m : M A) : Prop :=
  forall w, synced w -> synced (snd (m w)).

(** The pool is exhausted: the cursor is on the last credential. *)
Definition exhausted (w : world) : Prop :=
  S (current_key_index w) = List.length GEMINI_API_KEYS.

Section Runs.

Variable service : nat -> nat -> str -> outcome.
Variable unicode_lower : str -> str.
Variable console : list str -> str -> option exn.
Variable clock : list Z -> Z -> option exn.
Variable splitext : str -> str * str.
Variable fitz_open : str -> result (list str).
Variable docx_Document : str -> result (list str).
Variable open_read : str -> result str.

(** The labeled blocks of a list of sections, run from [w] to [w']: for
    each section its heading is announced, and its block is [## heading], a
    newline, the summary [summarize_section] returned for the body, a
    newline; in the order of the sections. *)
Inductive blocks_of : world -> list section -> list str -> world -> Prop :=
| blocks_nil w : blocks_of w [] [] w
| blocks_cons w heading content rest summary w1 blocks w2 :
    console (print_log w) (section_message heading) = None ->
    summarize_section service unicode_lower console clock content 3 5
                      (printed (section_message heading) w)
      = (Return summary, w1) ->
    blocks_of w1 rest blocks w2 ->
    blocks_of w ((heading, content) :: rest)
              ((lit "## " ++ heading ++ [NL] ++ summary ++ [NL]) :: blocks) w2.

(** A summary is empty, the failure string, or the trimmed, non-empty text
    of a response the service gave for [p]. *)
Definition summary_of (p : str) (s : str) : Prop :=
  s = [] \/ s = SUMMARY_FAILED \/
  exists n k r,
    service n k p = Responds r /\ s = response_text r /\ truthy s = true.

(** The states the process can be in: the state at start, and what the
    operations of the module make of a state it can be in, whether they
    return or raise. *)
Inductive reachable : world -> Prop :=
| reach_init : reachable initial_world
| reach_switch w :
    reachable w -> reachable (snd (switch_to_next_key console w))
| reach_section w section_text retries delay :
    reachable w ->
    reachable (snd (summarize_section service unicode_lower console clock
                                      section_text retries delay w))
| reach_text w text :
    reachable w ->
    reachable (snd (summarize_text_by_sections service unicode_lower console
                                               clock text w))
| reach_document w path :
    reachable w ->
    reachable (snd (summarize_document service unicode_lower console clock
                                       splitext fitz_open docx_Document
                                       open_read path w)).

End Runs.

(** [l1] is [l2] with some elements left out, the others in their order. *)
Inductive subseq {A : Type} : list A -> list A -> Prop :=
| subseq_nil l : subseq [] l
| subseq_skip x l1 l2 : subseq l1 l2 -> subseq l1 (x :: l2)
| subseq_take x l1 l2 : subseq l1 l2 -> subseq (x :: l1) (x :: l2).

(** The pieces of a split: a leading text, then headings with the text
    behind each. *)
Fixpoint interleave (pairs : list (str * str)) : list str :=
  match pairs with
  | [] => []
  | (heading, body) :: rest => heading :: body :: interleave rest
  end.

(** A captured heading that is still one once trimmed, followed by a text
    that, trimmed, does not begin with one. *)
Definition regular_pair (p : str * str) : Prop :=
  pattern_match (strip (fst p)) = true /\
  pattern_match (strip (snd p)) = false.

(** ** Sample environments and inputs *)

Definition answer (text : str) : outcome :=
  Responds {| candidates := Some [ {| content_parts := [text] |} ] |}.

(** Always a response without candidates. *)
Definition stub_empty : nat -> nat -> str -> outcome :=
  fun _ _ _ => Responds {| candidates := Some [] |}.

(** A quota error on the first call, then always [text]. *)
Definition stub_quota_then (text : str) : nat -> nat -> str -> outcome :=
  fun n _ _ =>
    match n with
    | O => Fails (Exception (lit "429 Quota exceeded for this key"))
    | S _ => answer text
    end.

(** A quota error on every call. *)
Definition stub_quota : nat -> nat -> str -> outcome :=
  fun _ _ _ => Fails (Exception (lit "429 Quota exceeded for this key")).

(** Two section summaries, then a failing merge request. *)
Definition stub_merge_fails : nat -> nat -> str -> outcome :=
  fun n _ _ =>
    if (n <? 2)%nat then answer (lit "Summary: ok")
    else Fails (Exception (lit "503 service unavailable")).

(** Every call fails. *)
Definition stub_unavailable : nat -> nat -> str -> outcome :=
  fun _ _ _ => Fails (Exception (lit "503 service unavailable")).

(** The digits of [c] in base 16, lower case, at least [width] of them. *)
Fixpoint hex_digits (width : nat) (c : N) : str :=
  match width with
  | O => []
  | S width' =>
      hex_digits width' (c / 16)
      ++ [let d := c mod 16 in if d <? 10 then 48 + d else 87 + d]
  end.

(** A character as [UnicodeEncodeError] shows it. *)
Definition escaped (c : char) : str :=
  if c <=? 255 then lit "\x" ++ hex_digits 2 c
  else if c <=? 65535 then lit "\u" ++ hex_digits 4 c
  else lit "\U" ++ hex_digits 8 c.

(** The first run of characters an encoding has no place for: where it
    starts, counting from [i], and the characters of the run. *)
Fixpoint first_refused (encodable : char -> bool) (s : str) (i : nat)
  : option (nat * str) :=
  match s with
  | [] => None
  | c :: s' =>
      if encodable c then first_refused encodable s' (S i)
      else Some (i, c :: (fix run (t : str) : str :=
                            match t with
                            | [] => []
                            | d :: t' => if encodable d then [] else d :: run t'
                            end) s')
  end.

(** A standard output with the error handler [strict]: a text with a
    character the encoding has no place for raises [UnicodeEncodeError],
    with the text of the codec [codec] for its reason [reason]. *)
Definition strict_console (codec reason : str) (encodable : char -> bool)
  : list str -> str -> option exn :=
  fun _ text =>
    match first_refused encodable text 0 with
    | None => None
    | Some (start, [c]) =>
        Some (UnicodeEncodeError
                (lit "'" ++ codec ++ lit "' codec can't encode character '"
                 ++ escaped c ++ lit "' in position " ++ str_of_nat start
                 ++ lit ": " ++ reason))
    | Some (start, run) =>
        Some (UnicodeEncodeError
                (lit "'" ++ codec ++ lit "' codec can't encode characters in position "
                 ++ str_of_nat start ++ lit "-"
                 ++ str_of_nat (start + List.length run - 1)
                 ++ lit ": " ++ reason))
    end.

(** A standard output encoded in ASCII (the C locale). *)
Definition ascii_console : list str -> str -> option exn :=
  strict_console (lit "ascii") (lit "ordinal not in range(128)") is_ascii.

(** A code point UTF-8 has a place for: any but a surrogate. *)
Definition utf8_encodable (c : char) : bool := (c <? 55296) || (57343 <? c).

(** A standard output encoded in UTF-8, which has no place for surrogate
    code points. *)
Definition utf8_console : list str -> str -> option exn :=
  strict_console (lit "utf-8") (lit "surrogates not allowed") utf8_encodable.

(** A text without surrogate code points. *)
Definition no_surrogates (s : str) : Prop := forallb utf8_encodable s = true.

(** A standard output that takes every text (one opened with an error
    handler such as [backslashreplace]). *)
Definition quiet_console : list str -> str -> option exn :=
  fun _ _ => None.

(** A platform whose sleep takes an unsigned 32-bit count of
    milliseconds (CPython up to 3.10 on Windows): a length outside the range
    of the interpreter's clock type and one too long for the system raise
    [OverflowError], a negative one [ValueError].  From -9223372036 seconds
    up to 0 every platform answers like this. *)
Definition sample_clock : list Z -> Z -> option exn :=
  fun _ secs =>
    if ((secs <? -9223372036) || (9223372036 <? secs))%Z
    then Some (OverflowError
                 (lit "timestamp too large to convert to C _PyTime_t"))
    else if (secs <? 0)%Z
    then Some (ValueError (lit "sleep length must be non-negative"))
    else if (4294967 <? secs)%Z
    then Some (OverflowError (lit "sleep length is too large"))
    else None.

(** Stands in for the Unicode case mapping where every text is ASCII,
    which never consults it. *)
Definition ascii_only_lower : str -> str := map lower_char.

Definition ten_words : str :=
  lit "one two three four five six seven eight nine ten".

Definition two_paragraphs : str :=
  lit "First paragraph.\n\nSecond paragraph.".

Definition indented_title : str :=
  lit "  KMRL REPORT\nPrepared by the office.\nSUMMARY\nAll fine.".

Definition indented_heading : str :=
  lit "  ANNUAL REPORT\nSUMMARY\nAll fine.".

Definition two_sections : str :=
  lit "INTRODUCTION\nThis is a short test document with enough words to pass the filter threshold easily.\n\nCONCLUSION\nAll done here today for testing purposes only right now.".

(** ** Notions for the cost and the edge cases of the pipeline *)

(** A text of whitespace only (the empty text is one). *)
Definition blank (s : str) : Prop := Forall (fun c => isspace c = true) s.

(** A section whose body [summarize_section] does not send to the
    service. *)
Definition short_section (sec : section) : Prop :=
  (List.length (str_split (strip (snd sec))) < 10)%nat.

(** The block of a section whose summary is empty. *)
Definition empty_block (sec : section) : str :=
  lit "## " ++ fst sec ++ [NL; NL].

(** A step that touches nothing but the standard output. *)
Definition only_prints (w w' : world) : Prop :=
  current_key_index w' = current_key_index w /\
  gemini_model w' = gemini_model w /\
  call_log w' = call_log w /\
  sleep_log w' = sleep_log w.

(** What a run may cost: at most [n] generation calls, and no more sleeps
    than calls, each of [delay] seconds. *)
Definition spends (n : nat) (delay : Z) (w w' : world) : Prop :=
  exists new k,
    call_log w' = new ++ call_log w /\
    (List.length new <= n)%nat /\
    sleep_log w' = repeat delay k ++ sleep_log w /\
    (k <= List.length new)%nat.

(** ** Paths ([os.path] on a POSIX system) *)

Definition SLASH : char := 47.
Definition DOT : char := 46.

(** [s.rfind(c)] for one character, scanning from index [i]; [best] is the
    last index found so far, [-1] for none. *)
Fixpoint rfind_from (c : char) (s : str) (i : Z) (best : Z) : Z :=
  match s with
  | [] => best
  | x :: s' => rfind_from c s' (i + 1) (if x =? c then i else best)
  end.

Definition rfind (c : char) (s : str) : Z := rfind_from c s 0 (-1).

(** [s[i:]], [s[:j]] and [s[i:j]] for indices that are not negative. *)
Definition slice_from (i : Z) (s : str) : str := skipn (Z.to_nat i) s.
Definition slice_to (j : Z) (s : str) : str := firstn (Z.to_nat j) s.
Definition slice (i j : Z) (s : str) : str := slice_from i (slice_to j s).

(** [s.endswith(c)] for one character. *)
Definition endswith_char (c : char) (s : str) : bool :=
  match rev s with
  | x :: _ => x =? c
  | [] => false
  end.

(** [posixpath.basename]: what follows the last slash. *)
Definition posix_basename (p : str) : str :=
  slice_from (rfind SLASH p + 1) p.

(** [posixpath.join] of two components: an absolute second component
    replaces the first; otherwise a slash is put between them unless the
    first is empty or ends with one. *)
Definition posix_join (a b : str) : str :=
  if startswith [SLASH] b then b
  else if negb (truthy a) || endswith_char SLASH a then a ++ b
  else a ++ [SLASH] ++ b.

(** [posixpath.splitext]: the extension starts at the last dot of the last
    component, provided a character other than a dot stands before it in
    that component. *)
Definition posix_splitext (p : str) : str * str :=
  let sepIndex := rfind SLASH p in
  let dotIndex := rfind DOT p in
  if (sepIndex <? dotIndex)%Z
  then
    if existsb (fun c => negb (c =? DOT)) (slice (sepIndex + 1) dotIndex p)
    then (slice_to dotIndex p, slice_from dotIndex p)
    else (p, [])
  else (p, []).

(** The extensions [read_document] has a reader for. *)
Definition supported (ext : str) : bool :=
  str_eqb ext (lit ".pdf") || str_eqb ext (lit ".docx")
  || str_eqb ext (lit ".doc") || str_eqb ext (lit ".txt").

(** ** Records of the document store *)

(** A value held in a record or a response: a str, [None], or another
    object, given by its [str()] (an [ObjectId] by its 24 hex digits). *)
Inductive value : Type :=
| VStr (s : str)
| VNone
| VObj (shown : str).

(** [str(v)] *)
Definition value_str (v : value) : str :=
  match v with
  | VStr s => s
  | VNone => lit "None"
  | VObj shown => shown
  end.

(** A Python dict with str keys, in insertion order. *)
Definition pydict := list (str * value).

(** [d.get(k)], [None] of the option for a missing key. *)
Fixpoint dict_get (k : str) (d : pydict) : option value :=
  match d with
  | [] => None
  | (k', v) :: d' => if str_eqb k' k then Some v else dict_get k d'
  end.

(** [k in d] *)
Definition dict_contains (k : str) (d : pydict) : bool :=
  match dict_get k d with Some _ => true | None => false end.

(** [d] without its entry for [k]. *)
Definition dict_remove (k : str) (d : pydict) : pydict :=
  filter (fun entry => negb (str_eqb (fst entry) k)) d.

(** [d[k] = v]: the value of an existing key is replaced in place, a new
    key is added at the end. *)
Fixpoint dict_set (k : str) (v : value) (d : pydict) : pydict :=
  match d with
  | [] => [(k, v)]
  | (k', v') :: d' =>
      if str_eqb k' k then (k, v) :: d' else (k', v') :: dict_set k v d'
  end.

(** The keys of a dict are pairwise different. *)
Definition well_formed (d : pydict) : Prop := NoDup (map fst d).

(** The body of the loop of [get_all_documents]:
    [if '_id' in doc: doc['_id'] = str(doc.pop('_id'))]. *)
Definition render_id (doc : pydict) : pydict :=
  match dict_get (lit "_id") doc with
  | Some id => dict_set (lit "_id") (VStr (value_str id))
                        (dict_remove (lit "_id") doc)
  | None => doc
  end.

(** How a record and its rendering are related: every other field is
    kept with its value, the identifier is there exactly if it was, as the
    str of what it was, and the keys stay pairwise different. *)
Definition rendered (doc doc' : pydict) : Prop :=
  (forall k, k <> lit "_id" -> dict_get k doc' = dict_get k doc) /\
  dict_get (lit "_id") doc'
    = option_map (fun id => VStr (value_str id)) (dict_get (lit "_id") doc) /\
  (well_formed doc -> well_formed doc').

(** The pydantic models of the requests. *)
Record DocumentData : Type := {
  title : str;
  url : str;
  summary : str;
  uploadedBy : str;
  uploadedAt : str
}.

Record URLIngest : Type := {
  ingest_url : str;
  ingest_filename : str
}.

(** [doc_data.dict()]: the fields in the order of their declaration. *)
Definition DocumentData_dict (doc_data : DocumentData) : pydict :=
  [ (lit "title", VStr (title doc_data));
    (lit "url", VStr (url doc_data));
    (lit "summary", VStr (summary doc_data));
    (lit "uploadedBy", VStr (uploadedBy doc_data));
    (lit "uploadedAt", VStr (uploadedAt doc_data)) ].

(** An uploaded file: its name and its bytes. *)
Record UploadFile : Type := {
  filename : str;
  file_bytes : list N
}.

(** What [download_summary] returns. *)
Inductive http_response : Type :=
| JSONResponse (status_code : Z) (content : pydict)
| FileResponse (path : str) (download_name : str) (media_type : str).

(** ** The environment of the web layer *)

(** The operations the web layer asks of the file system, the clock, the
    document store and the URL fetcher, in the order they are asked. *)
Inductive event : Type :=
| StoreUpload (path : str) (content : list N)
| PathExists (path : str)
| Remove (path : str)
| Makedirs (path : str)
| WriteText (path : str) (text : str)
| UtcNow
| InsertOne (doc : pydict)
| Find
| FetchUrl (url : str).

(** Everything outside the program.  The path functions and the folders
    of [config] are fixed; each operation answers as a function of the
    operations asked before (latest first), so an environment can behave in
    any way, also differently from one call to the next.  [env_fetch] is
    [ingestion.save_file_from_url], taken to return a str (a path, or a
    message) or to raise; [env_insert] answers with the inserted id.  The
    service, the case mapping, the standard output and the clock are those
    of the summarizer module. *)
Record environment : Type := {
  env_splitext : str -> str * str;
  env_join : str -> str -> str;
  env_basename : str -> str;
  RAW_FOLDER : str;
  SUMMARY_FOLDER : str;
  env_service : nat -> nat -> str -> outcome;
  env_unicode_lower : str -> str;
  env_console : list str -> str -> option exn;
  env_clock : list Z -> Z -> option exn;
  env_fitz_open : str -> result (list str);
  env_docx_Document : str -> result (list str);
  env_open_read : str -> result str;
  env_store : list event -> str -> list N -> option exn;
  env_exists : list event -> str -> bool;
  env_remove : list event -> str -> option exn;
  env_makedirs : list event -> str -> option exn;
  env_write : list event -> str -> str -> option exn;
  env_utcnow : list event -> str;
  env_insert : list event -> pydict -> result value;
  env_find : list event -> result (list pydict);
  env_fetch : list event -> str -> result str
}.

(** The state of the server process: the state of the summarizer module
    and the operations asked of the environment so far, latest first. *)
Record server : Type := {
  process : world;
  events : list event
}.

Definition asked (ev : event) (s : server) : server :=
  {| process := process s; events := ev :: events s |}.

(** Library calls and the summarizer: they return or raise a Python
    exception. *)
Definition P (A : Type) : Type := server -> result A * server.

Definition pret {A} (a : A) : P A := fun s => (Return a, s).

Definition pbind {A B} (m : P A) (k : A -> P B) : P B :=
  fun s =>
    match m s with
    | (Return a, s') => k a s'
    | (Raise e, s') => (Raise e, s')
    end.

Notation "x <<- m ;; k" := (pbind m (fun x => k))
  (at level 61, m at next level, right associativity).

(** What a request handler gives the framework: a value, an
    [HTTPException] it raised, or another exception nobody caught. *)
Inductive reply (A : Type) : Type :=
| Ok (a : A)
| HTTPException (status_code : Z) (detail : str)
| Uncaught (e : exn).

Arguments Ok {A} a.
Arguments HTTPException {A} status_code detail.
Arguments Uncaught {A} e.

Definition W (A : Type) : Type := server -> reply A * server.

Definition wret {A} (a : A) : W A := fun s => (Ok a, s).

Definition raise_http {A} (status_code : Z) (detail : str) : W A :=
  fun s => (HTTPException status_code detail, s).

Definition wbind {A B} (m : W A) (k : A -> W B) : W B :=
  fun s =>
    match m s with
    | (Ok a, s') => k a s'
    | (HTTPException status_code detail, s') =>
        (HTTPException status_code detail, s')
    | (Uncaught e, s') => (Uncaught e, s')
    end.

Notation "x <== m ;; k" := (wbind m (fun x => k))
  (at level 61, m at next level, right associativity).

(** A library call outside any [try]. *)
Definition uncaught {A} (m : P A) : W A :=
  fun s =>
    match m s with
    | (Return a, s') => (Ok a, s')
    | (Raise e, s') => (Uncaught e, s')
    end.

(** [try: body / except Exception as e: handler] around library calls. *)
Definition try_P {A} (body : P A) (handler : exn -> W A) : W A :=
  fun s =>
    match body s with
    | (Return a, s') => (Ok a, s')
    | (Raise e, s') => handler e s'
    end.

(** A computation of the summarizer module, run on the process state. *)
Definition in_process {A} (m : M A) : P A :=
  fun s =>
    match m (process s) with
    | (r, w') => (r, {| process := w'; events := events s |})
    end.

(** An operation that answers with nothing or raises. *)
Definition command (ev : event) (answer : option exn) : P unit :=
  fun s =>
    match answer with
    | None => (Return tt, asked ev s)
    | Some e => (Raise e, asked ev s)
    end.

(** An operation that answers with a value or raises. *)
Definition query {A} (ev : event) (answer : result A) : P A :=
  fun s => (answer, asked ev s).

(** The texts the web layer prints. *)

(** [f"DB Read Error: {e}"] *)
Definition read_error_message (e : exn) : str :=
  lit "DB Read Error: " ++ exn_str e.

(** [f"DB Save Error: {e}"] *)
Definition save_error_message (e : exn) : str :=
  lit "DB Save Error: " ++ exn_str e.

(** [f"Summarization failed for {name}: {e}"] *)
Definition failure_message (name : str) (e : exn) : str :=
  lit "Summarization failed for " ++ name ++ lit ": " ++ exn_str e.

Section WebLayer.

Variable E : environment.

(** [print(text)] in the server process. *)
Definition server_print (text : str) : P unit :=
  in_process (print (env_console E) text).

(** [file.file.seek(0)], [open(raw_path, "wb")] and [shutil.copyfileobj]:
    the three calls stand under one [try] and are one operation of the
    environment, which stores the upload or raises. *)
Definition store_upload (raw_path : str) (content : list N) : P unit :=
  fun s => command (StoreUpload raw_path content)
                   (env_store E (events s) raw_path content) s.

Definition os_path_exists (path : str) : P bool :=
  fun s => query (PathExists path) (Return (env_exists E (events s) path)) s.

Definition os_remove (path : str) : P unit :=
  fun s => command (Remove path) (env_remove E (events s) path) s.

(** [os.makedirs(path, exist_ok=True)] *)
Definition os_makedirs (path : str) : P unit :=
  fun s => command (Makedirs path) (env_makedirs E (events s) path) s.

(** [with open(path, "w", encoding="utf-8") as f: f.write(text)] *)
Definition write_text (path text : str) : P unit :=
  fun s => command (WriteText path text) (env_write E (events s) path text) s.

(** [datetime.utcnow().isoformat()] *)
Definition utcnow_isoformat : P str :=
  fun s => query UtcNow (Return (env_utcnow E (events s))) s.

(** [await SUMMARY_COLLECTION.insert_one(doc)]: the inserted id. *)
Definition insert_one (doc : pydict) : P value :=
  fun s => query (InsertOne doc) (env_insert E (events s) doc) s.

(** [await SUMMARY_COLLECTION.find().to_list(length)]: at most [length]
    of the records the store delivers. *)
Definition find_to_list (length : nat) : P (list pydict) :=
  fun s =>
    query Find
          (match env_find E (events s) with
           | Return documents => Return (firstn length documents)
           | Raise e => Raise e
           end) s.

Definition save_file_from_url (url : str) : P str :=
  fun s => query (FetchUrl url) (env_fetch E (events s) url) s.

(** *** Save summary ([document_summarizer.py]) *)

Definition save_summary (summary_text base_filename output_folder : str)
  : P str :=
  _ <<- os_makedirs output_folder ;;
  let summary_path :=
    env_join E output_folder (base_filename ++ lit "_summary.txt") in
  _ <<- write_text summary_path summary_text ;;
  pret summary_path.

(** *** Database wrappers ([main.py]) *)

Definition get_all_documents : W (list pydict) :=
  try_P
    (documents <<- find_to_list 1000 ;;
     pret (map render_id documents))
    (fun e =>
       _ <== uncaught (server_print (read_error_message e)) ;;
       raise_http 500 (lit "Database connection error on fetch.")).

Definition save_document_to_db (doc_data : DocumentData)
    (summary_file_path : str) : W pydict :=
  let doc_dict := DocumentData_dict doc_data in
  now <== uncaught utcnow_isoformat ;;
  let doc_dict := dict_set (lit "uploadedAt") (VStr now) doc_dict in
  let doc_dict :=
    dict_set (lit "summaryFilePath") (VStr summary_file_path) doc_dict in
  try_P
    (inserted_id <<- insert_one doc_dict ;;
     pret [ (lit "message", VStr (lit "Document saved successfully."));
            (lit "_id", VStr (value_str inserted_id)) ])
    (fun e =>
       _ <== uncaught (server_print (save_error_message e)) ;;
       raise_http 500 (lit "Database connection error on save.")).

(** [db_result.get('_id')] *)
Definition get_or_None (k : str) (d : pydict) : value :=
  match dict_get k d with
  | Some v => v
  | None => VNone
  end.

(** *** Endpoints ([main.py]) *)

Definition get_documents_endpoint : W (list pydict) := get_all_documents.

(** [document_summarizer.summarize_document(raw_path)] in the process. *)
Definition summarize_document_call (raw_path : str) : P str :=
  in_process
    (summarize_document (env_service E) (env_unicode_lower E) (env_console E)
                        (env_clock E) (env_splitext E) (env_fitz_open E)
                        (env_docx_Document E) (env_open_read E) raw_path).

(** The run of [summarize_document] an endpoint starts in the state [s]:
    what it returns or raises, and the process state it leaves. *)
Definition summarization (raw_path : str) (s : server) : result str * world :=
  summarize_document (env_service E) (env_unicode_lower E) (env_console E)
                     (env_clock E) (env_splitext E) (env_fitz_open E)
                     (env_docx_Document E) (env_open_read E) raw_path
                     (process s).

(** The handler of a failed summarization: the failure is printed under
    the name [name] of the request, the raw file is removed if it is there,
    then the failure is reported. *)
Definition summarization_failed (name raw_path : str) (e : exn) : W str :=
  _ <== uncaught (server_print (failure_message name e)) ;;
  there <== uncaught (os_path_exists raw_path) ;;
  _ <== uncaught (if there then os_remove raw_path else pret tt) ;;
  raise_http 500 (lit "Failed to generate summary: " ++ exn_str e).

Definition upload_file_endpoint (file : UploadFile) : W pydict :=
  let '(base_filename, ext) := env_splitext E (filename file) in
  let raw_path := env_join E (RAW_FOLDER E) (filename file) in
  _ <== try_P
          (store_upload raw_path (file_bytes file))
          (fun e =>
             raise_http 500 (lit "Failed to save uploaded file: " ++ exn_str e)) ;;
  summary_text <== try_P (summarize_document_call raw_path)
                         (summarization_failed (filename file) raw_path) ;;
  summary_file_path <==
    uncaught (save_summary summary_text base_filename (SUMMARY_FOLDER E)) ;;
  now <== uncaught utcnow_isoformat ;;
  let doc_data :=
    {| title := base_filename;
       url := lit "local://" ++ filename file;
       summary := summary_text;
       uploadedBy := lit "authenticated_user@kmrl.com";
       uploadedAt := now |} in
  db_result <== save_document_to_db doc_data summary_file_path ;;
  wret [ (lit "original_filename", VStr (filename file));
         (lit "summary_content", VStr summary_text);
         (lit "db_id", get_or_None (lit "_id") db_result);
         (lit "summary_download_name",
          VStr (env_basename E summary_file_path)) ].

Definition ingest_url_endpoint (data : URLIngest) : W pydict :=
  let url := ingest_url data in
  let base_filename := ingest_filename data in
  raw_path_or_error <== uncaught (save_file_from_url url) ;;
  if startswith (lit "Error") raw_path_or_error
  then raise_http 400 raw_path_or_error
  else
    let raw_path := raw_path_or_error in
    summary_text <== try_P (summarize_document_call raw_path)
                           (summarization_failed base_filename raw_path) ;;
    summary_file_path <==
      uncaught (save_summary summary_text base_filename (SUMMARY_FOLDER E)) ;;
    now <== uncaught utcnow_isoformat ;;
    let doc_data :=
      {| title := base_filename;
         url := url;
         summary := summary_text;
         uploadedBy := lit "authenticated_user@kmrl.com";
         uploadedAt := now |} in
    db_result <== save_document_to_db doc_data summary_file_path ;;
    wret [ (lit "original_filename", VStr base_filename);
           (lit "summary_content", VStr summary_text);
           (lit "db_id", get_or_None (lit "_id") db_result);
           (lit "summary_download_name",
            VStr (env_basename E summary_file_path)) ].

(** Steps 2 to 4 as both ingestion endpoints have them, word for word,
    once a raw file is in place; the endpoints differ in the title, the
    url and the name they report and print.  Used to reason about both at
    once. *)
Definition summarize_and_record
    (raw_path base_filename doc_url original_filename : str) : W pydict :=
  summary_text <== try_P (summarize_document_call raw_path)
                         (summarization_failed original_filename raw_path) ;;
  summary_file_path <==
    uncaught (save_summary summary_text base_filename (SUMMARY_FOLDER E)) ;;
  now <== uncaught utcnow_isoformat ;;
  let doc_data :=
    {| title := base_filename;
       url := doc_url;
       summary := summary_text;
       uploadedBy := lit "authenticated_user@kmrl.com";
       uploadedAt := now |} in
  db_result <== save_document_to_db doc_data summary_file_path ;;
  wret [ (lit "original_filename", VStr original_filename);
         (lit "summary_content", VStr summary_text);
         (lit "db_id", get_or_None (lit "_id") db_result);
         (lit "summary_download_name",
          VStr (env_basename E summary_file_path)) ].

(** The path [save_summary] writes to for a base name. *)
Definition summary_path (base_filename : str) : str :=
  env_join E (SUMMARY_FOLDER E) (base_filename ++ lit "_summary.txt").

(** The record [save_document_to_db] hands to the store. *)
Definition stored_record
    (doc_title doc_url doc_summary uploaded_at summary_file_path : str)
  : pydict :=
  [ (lit "title", VStr doc_title);
    (lit "url", VStr doc_url);
    (lit "summary", VStr doc_summary);
    (lit "uploadedBy", VStr (lit "authenticated_user@kmrl.com"));
    (lit "uploadedAt", VStr uploaded_at);
    (lit "summaryFilePath", VStr summary_file_path) ].

(** What an ingestion endpoint answers. *)
Definition ingestion_response
    (original_filename summary_text db_id download_name : str) : pydict :=
  [ (lit "original_filename", VStr original_filename);
    (lit "summary_content", VStr summary_text);
    (lit "db_id", VStr db_id);
    (lit "summary_download_name", VStr download_name) ].

Definition download_summary (name : str) : P http_response :=
  let summary_path := env_join E (SUMMARY_FOLDER E) name in
  there <<- os_path_exists summary_path ;;
  if negb there
  then pret (JSONResponse 404
               [(lit "error", VStr (lit "Summary file not found"))])
  else pret (FileResponse summary_path name (lit "text/plain")).

End WebLayer.

(** The server at start: the summarizer module just loaded, nothing asked
    of the environment. *)
Definition initial_server : server :=
  {| process := initial_world; events := [] |}.

(** ** A sample environment

    POSIX paths, the folders [data/raw] and [data/summaries], a file system
    on which every operation succeeds and every path exists, a clock that
    shows the number of operations asked so far, and a store that answers
    [insert].  Text files read as [txt]; the other readers fail.  The
    standard output is encoded in UTF-8. *)
Definition sample_env (service : nat -> nat -> str -> outcome)
    (txt : result str) (insert : result value) (fetched : result str)
  : environment :=
  {| env_splitext := posix_splitext;
     env_join := posix_join;
     env_basename := posix_basename;
     RAW_FOLDER := lit "data/raw";
     SUMMARY_FOLDER := lit "data/summaries";
     env_service := service;
     env_unicode_lower := ascii_only_lower;
     env_console := utf8_console;
     env_clock := sample_clock;
     env_fitz_open := fun _ => Raise (Exception (lit "cannot open"));
     env_docx_Document := fun _ => Raise (Exception (lit "cannot open"));
     env_open_read := fun _ => txt;
     env_store := fun _ _ _ => None;
     env_exists := fun _ _ => true;
     env_remove := fun _ _ => None;
     env_makedirs := fun _ _ => None;
     env_write := fun _ _ _ => None;
     env_utcnow := fun evs => lit "T" ++ str_of_nat (List.length evs);
     env_insert := fun _ _ => insert;
     env_find :=
       fun _ =>
         Return [ [ (lit "_id", VObj (lit "65f0c0ffee"));
                    (lit "title", VStr (lit "report")) ];
                  [ (lit "title", VStr (lit "draft")) ] ];
     env_fetch := fun _ _ => fetched |}.

Definition sample_upload : UploadFile :=
  {| filename := lit "report.txt"; file_bytes := [82; 69; 80] |}.

Definition sample_ingest : URLIngest :=
  {| ingest_url := lit "https://kmrl.example/report.txt";
     ingest_filename := lit "report" |}.

(** Summaries succeed, the merge fails, the document is [two_sections]. *)
Definition good_env : environment :=
  sample_env stub_merge_fails (Return two_sections)
             (Return (VObj (lit "65f0c0ffee")))
             (Return (lit "data/raw/report.txt")).

(** The raw file cannot be decoded. *)
Definition unreadable_env : environment :=
  sample_env stub_merge_fails
             (Raise (Exception (lit "invalid start byte")))
             (Return (VObj (lit "65f0c0ffee")))
             (Return (lit "data/raw/report.txt")).

(** The fetcher reports an error. *)
Definition unreachable_env : environment :=
  sample_env stub_merge_fails (Return two_sections)
             (Return (VObj (lit "65f0c0ffee")))
             (Return (lit "Error: host not found")).

Definition markdown_upload : UploadFile :=
  {| filename := lit "notes.MD"; file_bytes := [35; 32; 72] |}.

(** The store is down, and says so in French. *)
Definition storeless_env : environment :=
  sample_env stub_merge_fails (Return two_sections)
             (Raise (Exception (lit "connexion refusée")))
             (Return (lit "data/raw/report.txt")).

(** An environment with another standard output. *)
Definition on_console (console : list str -> str -> option exn)
    (E : environment) : environment :=
  {| env_splitext := env_splitext E;
     env_join := env_join E;
     env_basename := env_basename E;
     RAW_FOLDER := RAW_FOLDER E;
     SUMMARY_FOLDER := SUMMARY_FOLDER E;
     env_service := env_service E;
     env_unicode_lower := env_unicode_lower E;
     env_console := console;
     env_clock := env_clock E;
     env_fitz_open := env_fitz_open E;
     env_docx_Document := env_docx_Document E;
     env_open_read := env_open_read E;
     env_store := env_store E;
     env_exists := env_exists E;
     env_remove := env_remove E;
     env_makedirs := env_makedirs E;
     env_write := env_write E;
     env_utcnow := env_utcnow E;
     env_insert := env_insert E;
     env_find := env_find E;
     env_fetch := env_fetch E |}.

(** The readers of a process that holds one text file, [two_sections]. *)
Definition no_document : str -> result (list str) :=
  fun _ => Raise (Exception (lit "cannot open")).

Definition one_text (text : str) : str -> result str :=
  fun _ => Return text.

(** The world after [summarize_section] was asked for [ten_words] on a
    service out of quota and a standard output encoded in ASCII. *)
Definition quota_run (w : world) : world :=
  snd (summarize_section stub_quota ascii_only_lower ascii_console
                         sample_clock ten_words 3 5 w).

(** * Properties *)

Local Close Scope N_scope.

(** Projections of an updated world. *)
Ltac world_simpl :=
  cbn [current_key_index gemini_model call_log sleep_log print_log
       with_cursor with_model printed called slept snd fst] in *.

(** A conjunction of closed equations, each settled by evaluation. *)
Ltac evaluate :=
  repeat match goal with |- _ /\ _ => split end; vm_compute; reflexivity.

(** ** Rules for computations that never raise *)

Lemma returns_ret {A} (a : A) : returns (ret a).
Proof. intro w. exists a, w. reflexivity. Qed.

Lemma returns_bind {A B} (m : M A) (k : A -> M B) :
  returns m -> (forall a, returns (k a)) -> returns (bind m k).
Proof.
  intros Hm Hk w. destruct (Hm w) as (a & w1 & E).
  unfold bind. rewrite E. apply Hk.
Qed.

(** A handler that never raises makes the whole [try] never raise. *)
Lemma returns_try_except {A} (body : M A) (handler : exn -> M A) :
  (forall e, returns (handler e)) -> returns (try_except body handler).
Proof.
  intros Hh w. unfold try_except.
  destruct (body w) as [[a | e] w1].
  - exists a, w1. reflexivity.
  - apply Hh.
Qed.

(** On a standard output that takes every text [print] never raises. *)
Lemma returns_print console (text : str) :
  accepts console -> returns (print console text).
Proof.
  intros Hc w. unfold print. rewrite Hc. eexists; eexists; reflexivity.
Qed.

Lemma returns_switch_to_next_key console :
  accepts console -> returns (switch_to_next_key console).
Proof.
  intros Hc w. unfold switch_to_next_key, bind, print.
  destruct (_ <? _)%nat; [rewrite Hc |]; eexists; eexists; reflexivity.
Qed.

(** [time.sleep] sleeps the length and returns, or raises and leaves the
    world as it was. *)
Lemma time_sleep_cases clock (secs : Z) (w : world) :
  time_sleep clock secs w = (Return tt, slept secs w) \/
  exists e, time_sleep clock secs w = (Raise e, w).
Proof.
  unfold time_sleep. destruct (_ && _); [now left |].
  destruct (clock _ _) as [e |]; [right; now exists e | now left].
Qed.

Lemma time_sleep_sleeps clock (secs : Z) (w : world) :
  sleeps clock secs -> time_sleep clock secs w = (Return tt, slept secs w).
Proof.
  intros [Hrange | Hclock]; unfold time_sleep.
  - destruct (Z.leb_spec 0 secs); [| lia].
    destruct (Z.leb_spec secs 4294967); [reflexivity | lia].
  - destruct (_ && _); [reflexivity |]. now rewrite Hclock.
Qed.

(** The delay between the rounds of the section loop is slept on every
    platform. *)
Lemma sleeps_retry_delay clock : sleeps clock 5.
Proof. left. lia. Qed.

(** A length that is slept does not make [time.sleep] raise. *)
Lemma returns_time_sleep clock (secs : Z) :
  sleeps clock secs -> returns (time_sleep clock secs).
Proof.
  intros Hs w. rewrite time_sleep_sleeps by exact Hs.
  eexists; eexists; reflexivity.
Qed.

Create HintDb returns.
#[local] Hint Resolve returns_ret returns_bind returns_try_except
  returns_print returns_switch_to_next_key returns_time_sleep : returns.

(** ** Rules for the cursor, the model object and the call log *)

Lemma advances_refl w : advances w w.
Proof.
  split; [lia |]. split; [auto |]. exists []. split; [reflexivity |].
  intro H. split; [lia | constructor].
Qed.

Lemma advances_trans w1 w2 w3 :
  advances w1 w2 -> advances w2 w3 -> advances w1 w3.
Proof.
  intros (Hle1 & Hin1 & new1 & Hlog1 & Hm1) (Hle2 & Hin2 & new2 & Hlog2 & Hm2).
  split; [lia |]. split; [auto |].
  exists (new2 ++ new1). split.
  - rewrite Hlog2, Hlog1. apply app_assoc.
  - intro H. destruct (Hm1 H) as (Hb1 & Hall1).
    assert (H2 : gemini_model w2 <= current_key_index w2) by lia.
    destruct (Hm2 H2) as (Hb2 & Hall2).
    split; [lia |]. apply Forall_app. split.
    + eapply Forall_impl; [| exact Hall2]. cbn. intros c Hc. lia.
    + eapply Forall_impl; [| exact Hall1]. cbn. intros c Hc. lia.
Qed.

(** A step that leaves the cursor, the model object and the call log as
    they are. *)
Lemma advances_same w w' :
  current_key_index w' = current_key_index w ->
  gemini_model w' = gemini_model w ->
  call_log w' = call_log w ->
  advances w w'.
Proof.
  intros Hc Hm Hl. split; [lia |]. split; [lia |].
  exists []. split; [now rewrite Hl |].
  intro H. split; [lia | constructor].
Qed.

Lemma keeps_cursor_ret {A} (a : A) : keeps_cursor (ret a).
Proof. intro w. apply advances_refl. Qed.

Lemma keeps_cursor_lift {A} (r : result A) : keeps_cursor (lift r).
Proof. intro w. apply advances_refl. Qed.

Lemma keeps_cursor_bind {A B} (m : M A) (k : A -> M B) :
  keeps_cursor m -> (forall a, keeps_cursor (k a)) -> keeps_cursor (bind m k).
Proof.
  intros Hm Hk w. specialize (Hm w). unfold bind.
  destruct (m w) as [[a | e] w1]; cbn [snd] in *.
  - eapply advances_trans; [exact Hm | apply Hk].
  - exact Hm.
Qed.

Lemma keeps_cursor_try_except {A} (body : M A) (handler : exn -> M A) :
  keeps_cursor body -> (forall e, keeps_cursor (handler e)) ->
  keeps_cursor (try_except body handler).
Proof.
  intros Hb Hh w. specialize (Hb w). unfold try_except.
  destruct (body w) as [[a | e] w1]; cbn [snd] in *.
  - exact Hb.
  - eapply advances_trans; [exact Hb | apply Hh].
Qed.

Lemma keeps_cursor_print console (text : str) :
  keeps_cursor (print console text).
Proof.
  intro w. unfold print. destruct (console _ _); cbn [snd].
  - apply advances_refl.
  - now apply advances_same.
Qed.

Lemma keeps_cursor_time_sleep clock (secs : Z) :
  keeps_cursor (time_sleep clock secs).
Proof.
  intro w. destruct (time_sleep_cases clock secs w) as [-> | [e ->]];
    cbn [snd].
  - now apply advances_same.
  - apply advances_refl.
Qed.

(** Whether its announcement is written or not, a switch moves the cursor
    by one inside the pool; the model object follows only if it is. *)
Lemma keeps_cursor_switch_to_next_key console :
  keeps_cursor (switch_to_next_key console).
Proof.
  intro w. unfold switch_to_next_key, bind, print.
  destruct (Nat.ltb_spec (current_key_index w + 1)
                         (List.length GEMINI_API_KEYS)) as [Hlt | Hge];
    [| apply advances_refl].
  world_simpl.
  destruct (console _ _); world_simpl;
    (split; [world_simpl; lia |]); (split; [world_simpl; lia |]);
    (exists []; split; [reflexivity |]); world_simpl;
    intro H; (split; [lia | constructor]).
Qed.

Lemma keeps_cursor_generate_content service (p : str) :
  keeps_cursor (generate_content service p).
Proof.
  intro w. unfold generate_content.
  assert (H : advances w (called (gemini_model w, p) w)).
  { split; [world_simpl; lia |]. split; [world_simpl; lia |].
    exists [(gemini_model w, p)]. split; [reflexivity |].
    world_simpl. intro H. split; [lia |].
    constructor; [world_simpl; lia | constructor]. }
  destruct (service _ _ _); exact H.
Qed.

Create HintDb cursor.
#[local] Hint Resolve keeps_cursor_ret keeps_cursor_lift keeps_cursor_bind
  keeps_cursor_try_except keeps_cursor_print keeps_cursor_switch_to_next_key
  keeps_cursor_time_sleep keeps_cursor_generate_content : cursor.

(** ** Rules for the model object staying at the cursor *)

Lemma keeps_sync_ret {A} (a : A) : keeps_sync (ret a).
Proof. intros w H. exact H. Qed.

Lemma keeps_sync_lift {A} (r : result A) : keeps_sync (lift r).
Proof. intros w H. exact H. Qed.

Lemma keeps_sync_bind {A B} (m : M A) (k : A -> M B) :
  keeps_sync m -> (forall a, keeps_sync (k a)) -> keeps_sync (bind m k).
Proof.
  intros Hm Hk w Hw. specialize (Hm w Hw). unfold bind.
  destruct (m w) as [[a | e] w1]; cbn [snd] in *.
  - now apply Hk.
  - exact Hm.
Qed.

Lemma keeps_sync_try_except {A} (body : M A) (handler : exn -> M A) :
  keeps_sync body -> (forall e, keeps_sync (handler e)) ->
  keeps_sync (try_except body handler).
Proof.
  intros Hb Hh w Hw. specialize (Hb w Hw). unfold try_except.
  destruct (body w) as [[a | e] w1]; cbn [snd] in *.
  - exact Hb.
  - now apply Hh.
Qed.

Lemma keeps_sync_print console (text : str) : keeps_sync (print console text).
Proof.
  intros w Hw. unfold print. destruct (console _ _); exact Hw.
Qed.

Lemma keeps_sync_time_sleep clock (secs : Z) :
  keeps_sync (time_sleep clock secs).
Proof.
  intros w Hw.
  destruct (time_sleep_cases clock secs w) as [-> | [e ->]]; exact Hw.
Qed.

Lemma keeps_sync_generate_content service (p : str) :
  keeps_sync (generate_content service p).
Proof.
  intros w Hw. unfold generate_content. destruct (service _ _ _); exact Hw.
Qed.

(** A switch whose announcement is written rebuilds the model object with
    the credential at the cursor. *)
Lemma keeps_sync_switch_to_next_key console :
  announces console -> keeps_sync (switch_to_next_key console).
Proof.
  intros Hc w Hw. unfold switch_to_next_key, bind, print.
  destruct (_ <? _)%nat; [| exact Hw].
  rewrite Hc. reflexivity.
Qed.

Create HintDb sync.
#[local] Hint Resolve keeps_sync_ret keeps_sync_lift keeps_sync_bind
  keeps_sync_try_except keeps_sync_print keeps_sync_time_sleep
  keeps_sync_generate_content keeps_sync_switch_to_next_key : sync.

(** ** The cursor and the model object through the pipeline *)

Section PipelineFacts.

Variable service : nat -> nat -> str -> outcome.
Variable unicode_lower : str -> str.
Variable console : list str -> str -> option exn.
Variable clock : list Z -> Z -> option exn.

Lemma keeps_cursor_attempt (p : str) (attempt_no : nat) (retries : Z) :
  keeps_cursor (attempt service unicode_lower console p attempt_no retries).
Proof.
  unfold attempt. apply keeps_cursor_try_except.
  - apply keeps_cursor_bind; auto with cursor.
    intro r. destruct (truthy _); auto with cursor.
  - intro e. apply keeps_cursor_bind.
    + destruct (contains _ _); auto with cursor.
    + intros []; auto with cursor.
Qed.

Lemma keeps_cursor_attempts (p : str) (retries : Z) (rounds : list nat)
    (delay : Z) :
  keeps_cursor (attempts service unicode_lower console clock p retries rounds
                         delay).
Proof.
  induction rounds as [| attempt_no rounds IH]; cbn [attempts];
    auto with cursor.
  apply keeps_cursor_bind; [apply keeps_cursor_attempt |].
  intros [summary | |]; auto with cursor.
Qed.

Lemma keeps_cursor_summarize_section (section_text : str) (retries delay : Z) :
  keeps_cursor (summarize_section service unicode_lower console clock
                                  section_text retries delay).
Proof.
  unfold summarize_section.
  destruct (_ <? _)%nat; [apply keeps_cursor_ret | apply keeps_cursor_attempts].
Qed.

Lemma keeps_cursor_summarize_each (sections : list section) :
  keeps_cursor (summarize_each service unicode_lower console clock sections).
Proof.
  induction sections as [| [heading content] rest IH]; cbn [summarize_each].
  - apply keeps_cursor_ret.
  - apply keeps_cursor_bind; [apply keeps_cursor_print |]. intros _.
    apply keeps_cursor_bind; [apply keeps_cursor_summarize_section |].
    intro summary. apply keeps_cursor_bind; [exact IH |].
    intro blocks. apply keeps_cursor_ret.
Qed.

Lemma keeps_cursor_merge_call (p : str) :
  keeps_cursor (merge_call service console p).
Proof.
  unfold merge_call. apply keeps_cursor_try_except; auto with cursor.
  apply keeps_cursor_bind; auto with cursor.
  intro r. destruct (truthy _); auto with cursor.
Qed.

Lemma keeps_cursor_summarize_text_by_sections (text : str) :
  keeps_cursor (summarize_text_by_sections service unicode_lower console
                                           clock text).
Proof.
  unfold summarize_text_by_sections.
  apply keeps_cursor_bind; [apply keeps_cursor_summarize_each |].
  intro blocks. apply keeps_cursor_bind; [apply keeps_cursor_merge_call |].
  intros [final |]; apply keeps_cursor_ret.
Qed.

End PipelineFacts.

(** ** On a standard output that takes every text *)

Section QuietConsole.

Variable service : nat -> nat -> str -> outcome.
Variable unicode_lower : str -> str.
Variable console : list str -> str -> option exn.
Variable clock : list Z -> Z -> option exn.

Hypothesis console_accepts : accepts console.

Lemma returns_attempt (p : str) (attempt_no : nat) (retries : Z) :
  returns (attempt service unicode_lower console p attempt_no retries).
Proof.
  unfold attempt. apply returns_try_except. intro e.
  apply returns_bind.
  - destruct (contains _ _); auto with returns.
  - intros []; auto with returns.
Qed.

Lemma returns_attempts (p : str) (retries : Z) (rounds : list nat)
    (delay : Z) :
  sleeps clock delay ->
  returns (attempts service unicode_lower console clock p retries rounds delay).
Proof.
  intro Hd. induction rounds as [| attempt_no rounds IH]; cbn [attempts].
  - apply returns_ret.
  - apply returns_bind; [apply returns_attempt |].
    intros [summary | |]; auto with returns.
Qed.

Lemma returns_summarize_section (section_text : str) (retries delay : Z) :
  sleeps clock delay ->
  returns (summarize_section service unicode_lower console clock section_text
                             retries delay).
Proof.
  intro Hd. unfold summarize_section.
  destruct (_ <? _)%nat; [apply returns_ret | now apply returns_attempts].
Qed.

Lemma returns_summarize_each (sections : list section) :
  returns (summarize_each service unicode_lower console clock sections).
Proof.
  pose proof (sleeps_retry_delay clock) as Hd.
  induction sections as [| [heading content] rest IH]; cbn [summarize_each].
  - apply returns_ret.
  - apply returns_bind; [now apply returns_print |]. intros _.
    apply returns_bind; [now apply returns_summarize_section |].
    intro summary. apply returns_bind; [exact IH |].
    intro blocks. apply returns_ret.
Qed.

Lemma returns_merge_call (p : str) : returns (merge_call service console p).
Proof.
  unfold merge_call. apply returns_try_except. intro e.
  auto with returns.
Qed.

(** With every progress message written [summarize_text_by_sections]
    never raises, whatever the service answers or raises on any call. *)
Lemma returns_summarize_text_by_sections (text : str) :
  returns (summarize_text_by_sections service unicode_lower console clock
                                      text).
Proof.
  unfold summarize_text_by_sections.
  apply returns_bind; [apply returns_summarize_each |].
  intro blocks. apply returns_bind; [apply returns_merge_call |].
  intros [final |]; apply returns_ret.
Qed.

End QuietConsole.

(** ** On a standard output that takes the announcements of switches *)

Section Announced.

Variable service : nat -> nat -> str -> outcome.
Variable unicode_lower : str -> str.
Variable console : list str -> str -> option exn.
Variable clock : list Z -> Z -> option exn.

Hypothesis console_announces : announces console.

Lemma keeps_sync_attempt (p : str) (attempt_no : nat) (retries : Z) :
  keeps_sync (attempt service unicode_lower console p attempt_no retries).
Proof.
  unfold attempt. apply keeps_sync_try_except.
  - apply keeps_sync_bind; auto with sync.
    intro r. destruct (truthy _); auto with sync.
  - intro e. apply keeps_sync_bind.
    + destruct (contains _ _); auto with sync.
    + intros []; auto with sync.
Qed.

Lemma keeps_sync_attempts (p : str) (retries : Z) (rounds : list nat)
    (delay : Z) :
  keeps_sync (attempts service unicode_lower console clock p retries rounds
                       delay).
Proof.
  induction rounds as [| attempt_no rounds IH]; cbn [attempts];
    auto with sync.
  apply keeps_sync_bind; [apply keeps_sync_attempt |].
  intros [summary | |]; auto with sync.
Qed.

Lemma keeps_sync_summarize_section (section_text : str) (retries delay : Z) :
  keeps_sync (summarize_section service unicode_lower console clock
                                section_text retries delay).
Proof.
  unfold summarize_section.
  destruct (_ <? _)%nat; [apply keeps_sync_ret | apply keeps_sync_attempts].
Qed.

Lemma keeps_sync_summarize_each (sections : list section) :
  keeps_sync (summarize_each service unicode_lower console clock sections).
Proof.
  induction sections as [| [heading content] rest IH]; cbn [summarize_each].
  - apply keeps_sync_ret.
  - apply keeps_sync_bind; [apply keeps_sync_print |]. intros _.
    apply keeps_sync_bind; [apply keeps_sync_summarize_section |].
    intro summary. apply keeps_sync_bind; [exact IH |].
    intro blocks. apply keeps_sync_ret.
Qed.

Lemma keeps_sync_summarize_text_by_sections (text : str) :
  keeps_sync (summarize_text_by_sections service unicode_lower console clock
                                         text).
Proof.
  unfold summarize_text_by_sections.
  apply keeps_sync_bind; [apply keeps_sync_summarize_each |].
  intro blocks. apply keeps_sync_bind.
  - unfold merge_call. apply keeps_sync_try_except; auto with sync.
    apply keeps_sync_bind; auto with sync.
    intro r. destruct (truthy _); auto with sync.
  - intros [final |]; apply keeps_sync_ret.
Qed.

End Announced.

(** ** The caller-facing operation *)

Section Document.

Variable service : nat -> nat -> str -> outcome.
Variable unicode_lower : str -> str.
Variable console : list str -> str -> option exn.
Variable clock : list Z -> Z -> option exn.
Variable splitext : str -> str * str.
Variable fitz_open : str -> result (list str).
Variable docx_Document : str -> result (list str).
Variable open_read : str -> result str.

(** A failed extraction is the failure of [summarize_document]; nothing
    else is done. *)
Lemma summarize_document_extraction_raises (path : str) (e : exn) (w : world) :
  read_document unicode_lower splitext fitz_open docx_Document open_read path
    = Raise e ->
  summarize_document service unicode_lower console clock splitext fitz_open
                     docx_Document open_read path w
    = (Raise e, w).
Proof.
  intro Hread. unfold summarize_document, bind, lift. now rewrite Hread.
Qed.


End Document.

(** ** The per-section summarizer *)

Lemma repeat_shift {A} (x : A) (n : nat) (l : list A) :
  repeat x n ++ x :: l = x :: repeat x n ++ l.
Proof. induction n as [| n IH]; cbn; [reflexivity | now rewrite IH]. Qed.

Section Summarizer.

Variable service : nat -> nat -> str -> outcome.
Variable unicode_lower : str -> str.
Variable console : list str -> str -> option exn.
Variable clock : list Z -> Z -> option exn.

(** A round whose call answers with empty text logs the call, announces
    the retry and asks for the delay. *)
Lemma attempt_empty_answer (p : str) (attempt_no : nat) (retries : Z)
    (w : world) :
  empty_answer (service (calls w) (gemini_model w) p) = true ->
  console (print_log w) (retrying_message attempt_no retries) = None ->
  attempt service unicode_lower console p attempt_no retries w =
    (Return Sleep,
     printed (retrying_message attempt_no retries)
             (called (gemini_model w, p) w)).
Proof.
  unfold empty_answer, attempt, try_except, bind, generate_content, calls.
  destruct (service _ _ _) as [r | e]; [| discriminate].
  intros Hempty Hprint.
  destruct (truthy (response_text r)); [discriminate |].
  unfold print. world_simpl. rewrite Hprint. reflexivity.
Qed.

(** A round whose call raises a quota error while a further credential is
    left moves the cursor, announces the switch, rebuilds the model object
    and goes to the next round at once. *)
Lemma attempt_quota_error (p : str) (attempt_no : nat) (retries : Z)
    (w : world) :
  (current_key_index w + 1 < List.length GEMINI_API_KEYS)%nat ->
  quota_error unicode_lower (service (calls w) (gemini_model w) p) = true ->
  console (print_log w) (switching_message (current_key_index w + 1)) = None ->
  attempt service unicode_lower console p attempt_no retries w =
    (Return Continue,
     {| current_key_index := current_key_index w + 1;
        gemini_model := current_key_index w + 1;
        call_log := (gemini_model w, p) :: call_log w;
        sleep_log := sleep_log w;
        print_log := switching_message (current_key_index w + 1)
                       :: print_log w |}).
Proof.
  unfold quota_error, attempt, try_except, bind, generate_content, calls.
  intros Hpool. destruct (service _ _ _) as [r | e]; [discriminate |].
  intros -> Hprint. unfold switch_to_next_key, bind, print. world_simpl.
  destruct (Nat.ltb_spec (current_key_index w + 1) (List.length GEMINI_API_KEYS));
    [| lia].
  rewrite Hprint. reflexivity.
Qed.

(** A round whose call answers with usable text returns it, trimmed. *)
Lemma attempt_usable (p : str) (attempt_no : nat) (retries : Z) (w : world)
    (r : response) :
  service (calls w) (gemini_model w) p = Responds r ->
  truthy (response_text r) = true ->
  attempt service unicode_lower console p attempt_no retries w =
    (Return (Returned (response_text r)), called (gemini_model w, p) w).
Proof.
  unfold attempt, try_except, bind, generate_content, calls.
  intros -> ->. reflexivity.
Qed.

Lemma attempts_all_empty (p : str) (retries delay : Z) :
  takes_retries console retries ->
  sleeps clock delay ->
  (forall m k q, empty_answer (service m k q) = true) ->
  forall rounds w,
    attempts service unicode_lower console clock p retries rounds delay w =
      (Return SUMMARY_FAILED,
       {| current_key_index := current_key_index w;
          gemini_model := gemini_model w;
          call_log := repeat (gemini_model w, p) (List.length rounds)
                        ++ call_log w;
          sleep_log := repeat delay (List.length rounds) ++ sleep_log w;
          print_log :=
            rev (map (fun attempt_no => retrying_message attempt_no retries)
                     rounds)
              ++ print_log w |}).
Proof.
  intros Hconsole Hclock Hempty.
  induction rounds as [| attempt_no rounds IH]; intro w.
  - destruct w; reflexivity.
  - cbn [attempts]. unfold bind at 1.
    rewrite attempt_empty_answer by (apply Hempty || apply Hconsole).
    unfold bind. rewrite (time_sleep_sleeps _ _ _ Hclock).
    rewrite IH. world_simpl. cbn [List.length repeat map rev].
    rewrite !repeat_shift, <- app_assoc. reflexivity.
Qed.

(** C9. A section body with fewer than 10 whitespace-delimited words after
    trimming is summarized as the empty string and the world is left as it
    was: no generation call is logged (and nothing is printed or slept),
    whatever [retries], [delay], the service, the standard output and the
    clock are. *)
Theorem short_section_makes_no_call (section_text : str) (retries delay : Z)
    (w : world) :
  (List.length (str_split (strip section_text)) < 10)%nat ->
  summarize_section service unicode_lower console clock section_text retries
                    delay w
    = (Return [], w) /\
  call_log (snd (summarize_section service unicode_lower console clock
                                   section_text retries delay w))
    = call_log w.
Proof.
  intro Hshort. unfold summarize_section.
  destruct (Nat.ltb_spec (List.length (str_split (strip section_text))) 10);
    [| lia].
  split; reflexivity.
Qed.

(** C4, as the code has it.  For a section body of at least 10 words and a
    service that answers every call with empty or missing text,
    [summarize_section], given a retry count that is not negative, a delay
    the platform sleeps and a standard output that takes the retry
    messages, returns the fixed failure string without raising, after
    exactly [retries] generation calls, all with the section's prompt and
    the credential of the model object, each announced as empty and
    followed by one delay; the string contains the marker "failed after
    retries". *)
Theorem always_empty_exhausts_retries (section_text : str) (retries delay : Z)
    (w : world) :
  (10 <= List.length (str_split (strip section_text)))%nat ->
  (0 <= retries)%Z ->
  sleeps clock delay ->
  takes_retries console retries ->
  (forall n k p, empty_answer (service n k p) = true) ->
  let run :=
    summarize_section service unicode_lower console clock section_text
                      retries delay w in
  run =
    (Return SUMMARY_FAILED,
     {| current_key_index := current_key_index w;
        gemini_model := gemini_model w;
        call_log := repeat (gemini_model w, prompt section_text)
                           (Z.to_nat retries) ++ call_log w;
        sleep_log := repeat delay (Z.to_nat retries) ++ sleep_log w;
        print_log :=
          rev (map (fun attempt_no => retrying_message attempt_no retries)
                   (seq 0 (Z.to_nat retries)))
            ++ print_log w |}) /\
  Z.of_nat (calls (snd run)) = (Z.of_nat (calls w) + retries)%Z /\
  contains (lit "failed after retries") SUMMARY_FAILED = true.
Proof.
  intros Hwords Hretries Hdelay Hconsole Hempty run. subst run.
  unfold summarize_section.
  destruct (Nat.ltb_spec (List.length (str_split (strip section_text))) 10);
    [lia |].
  rewrite attempts_all_empty by assumption. rewrite length_seq.
  split; [reflexivity | split].
  - unfold calls. cbn [snd call_log].
    rewrite length_app, repeat_length. lia.
  - vm_compute. reflexivity.
Qed.

(** C5, as the code has it.  With at least two rounds in the retry budget
    and the pool not exhausted: if the first call of [summarize_section]
    raises an error whose lowered message contains "quota", the
    announcement of the switch is written, and the second call, made with
    the next credential, answers with text that is not empty once trimmed,
    then the cursor has advanced by exactly one and the model object with
    it, nothing was slept in between, exactly two calls were made, and the
    trimmed text is returned. *)
Theorem quota_error_rotates_and_retries (section_text : str)
    (retries delay : Z) (w : world) (r : response) :
  (10 <= List.length (str_split (strip section_text)))%nat ->
  (2 <= retries)%Z ->
  (current_key_index w + 1 < List.length GEMINI_API_KEYS)%nat ->
  quota_error unicode_lower
              (service (calls w) (gemini_model w) (prompt section_text))
    = true ->
  console (print_log w) (switching_message (current_key_index w + 1)) = None ->
  service (S (calls w)) (current_key_index w + 1) (prompt section_text)
    = Responds r ->
  truthy (response_text r) = true ->
  summarize_section service unicode_lower console clock section_text retries
                    delay w =
    (Return (response_text r),
     {| current_key_index := current_key_index w + 1;
        gemini_model := current_key_index w + 1;
        call_log := (current_key_index w + 1, prompt section_text)
                      :: (gemini_model w, prompt section_text)
                      :: call_log w;
        sleep_log := sleep_log w;
        print_log := switching_message (current_key_index w + 1)
                       :: print_log w |}).
Proof.
  intros Hwords Hretries Hpool Hquota Hprint Hsecond Htext.
  unfold summarize_section.
  destruct (Nat.ltb_spec (List.length (str_split (strip section_text))) 10);
    [lia |].
  destruct (Z.to_nat retries) as [| [| n]] eqn:Hn; [lia | lia |].
  cbn [seq attempts]. unfold bind at 1.
  rewrite attempt_quota_error by assumption.
  unfold bind at 1.
  rewrite (attempt_usable _ _ _ _ r) by assumption.
  reflexivity.
Qed.

End Summarizer.

(** ** The merge pass and its fallback *)

Section Merge.

Variable service : nat -> nat -> str -> outcome.
Variable unicode_lower : str -> str.
Variable console : list str -> str -> option exn.
Variable clock : list Z -> Z -> option exn.

(** With every progress message written the loop over the sections
    yields the labeled blocks. *)
Lemma summarize_each_blocks (sections : list section) (w : world) :
  accepts console ->
  exists blocks w1,
    summarize_each service unicode_lower console clock sections w
      = (Return blocks, w1) /\
    blocks_of service unicode_lower console clock w sections blocks w1.
Proof.
  intros Hconsole. pose proof (sleeps_retry_delay clock) as Hclock.
  revert w. induction sections as [| [heading content] rest IH]; intro w.
  - exists [], w. split; [reflexivity | constructor].
  - destruct (returns_summarize_section service unicode_lower console clock
                Hconsole content 3 5 Hclock
                (printed (section_message heading) w))
      as (summary & w1 & Hsum).
    destruct (IH w1) as (blocks & w2 & Hrest & Hblocks).
    exists ((lit "## " ++ heading ++ [NL] ++ summary ++ [NL]) :: blocks), w2.
    split.
    + cbn [summarize_each]. unfold bind, print. rewrite Hconsole.
      rewrite Hsum, Hrest. reflexivity.
    + econstructor; [apply Hconsole | eassumption | eassumption].
Qed.

(** The labeled blocks are what the loop computes. *)
Lemma blocks_of_run (sections : list section) (w w1 : world) (blocks : list str) :
  blocks_of service unicode_lower console clock w sections blocks w1 ->
  summarize_each service unicode_lower console clock sections w
    = (Return blocks, w1).
Proof.
  induction 1
    as [w | w heading content rest summary w1 blocks w2 Hprint Hsum _ IH].
  - reflexivity.
  - cbn [summarize_each]. unfold bind, print. rewrite Hprint.
    rewrite Hsum, IH. reflexivity.
Qed.

(** A merge request that raises or answers with empty text gives nothing,
    provided the report of the failure is written. *)
Lemma merge_call_unusable (p : str) (w : world) :
  accepts console ->
  unusable (service (calls w) (gemini_model w) p) = true ->
  fst (merge_call service console p w) = Return None.
Proof.
  intro Hconsole.
  unfold unusable, merge_call, try_except, bind, generate_content, calls.
  destruct (service _ _ _) as [r | e].
  - destruct (truthy (response_text r)); [discriminate | reflexivity].
  - intros _. unfold print. rewrite Hconsole. reflexivity.
Qed.


End Merge.

(** ** The credential cursor *)

Section Cursor.

Variable service : nat -> nat -> str -> outcome.
Variable unicode_lower : str -> str.
Variable console : list str -> str -> option exn.
Variable clock : list Z -> Z -> option exn.
Variable splitext : str -> str * str.
Variable fitz_open : str -> result (list str).
Variable docx_Document : str -> result (list str).
Variable open_read : str -> result str.

Lemma keeps_cursor_summarize_document (path : str) :
  keeps_cursor
    (summarize_document service unicode_lower console clock splitext
                        fitz_open docx_Document open_read path).
Proof.
  unfold summarize_document.
  apply keeps_cursor_bind; [apply keeps_cursor_lift |].
  intro text. apply keeps_cursor_summarize_text_by_sections.
Qed.

(** In every state the process can reach the cursor is inside the pool
    and the model object is at or behind it. *)
Lemma reachable_in_pool (w : world) :
  reachable service unicode_lower console clock splitext fitz_open
            docx_Document open_read w ->
  current_key_index w < List.length GEMINI_API_KEYS /\
  gemini_model w <= current_key_index w.
Proof.
  assert (Hstep : forall w w',
            advances w w' ->
            current_key_index w < List.length GEMINI_API_KEYS /\
            gemini_model w <= current_key_index w ->
            current_key_index w' < List.length GEMINI_API_KEYS /\
            gemini_model w' <= current_key_index w').
  { intros v v' (_ & Hin & new & _ & Hm) [Hpool Hbehind].
    split; [auto |]. destruct (Hm Hbehind) as [Hb _]. lia. }
  induction 1 as [| w _ IH | w section_text retries delay _ IH | w text _ IH
                  | w path _ IH].
  - cbn. lia.
  - eapply Hstep; [apply keeps_cursor_switch_to_next_key | exact IH].
  - eapply Hstep; [apply keeps_cursor_summarize_section | exact IH].
  - eapply Hstep; [apply keeps_cursor_summarize_text_by_sections | exact IH].
  - eapply Hstep; [apply keeps_cursor_summarize_document | exact IH].
Qed.

(** If every announcement of a switch was written, the model object is
    built with the credential at the cursor in every state the process can
    reach. *)
Lemma reachable_synced (w : world) :
  announces console ->
  reachable service unicode_lower console clock splitext fitz_open
            docx_Document open_read w ->
  synced w.
Proof.
  intro Hconsole.
  induction 1 as [| w _ IH | w section_text retries delay _ IH | w text _ IH
                  | w path _ IH].
  - reflexivity.
  - now apply keeps_sync_switch_to_next_key.
  - now apply keeps_sync_summarize_section.
  - now apply keeps_sync_summarize_text_by_sections.
  - unfold summarize_document. apply keeps_sync_bind; [| | exact IH].
    + apply keeps_sync_lift.
    + intro text. now apply keeps_sync_summarize_text_by_sections.
Qed.

(** On the last credential, with the model object built with it, a run
    leaves both where they are and makes all its calls with that
    credential. *)
Lemma advances_exhausted (w w' : world) :
  exhausted w -> synced w -> advances w w' ->
  current_key_index w' = current_key_index w /\
  gemini_model w' = gemini_model w /\
  exists new,
    call_log w' = new ++ call_log w /\
    Forall (fun c => fst c = current_key_index w) new.
Proof.
  unfold exhausted, synced. intros Hlast Hsync (Hle & Hin & new & Hlog & Hm).
  destruct (Hm ltac:(lia)) as [Hb Hall].
  assert (Hsame : current_key_index w' = current_key_index w) by lia.
  split; [exact Hsame |]. split; [lia |].
  exists new. split; [exact Hlog |].
  eapply Forall_impl; [| exact Hall]. cbn. intros c Hc. lia.
Qed.

(** C6, as the code has it.  The cursor starts at 0 and is below the pool
    length in every state the process can reach.  [switch_to_next_key]
    leaves the cursor where it is or adds exactly one to it, reports
    success only after adding one, and reports refusal only with the state
    unchanged; the summarization operations never decrease the cursor.
    Once it is on the last credential, advancing is refused.  Generation
    calls are made with the credential the model object was built with:
    where every announcement of a switch was written that is the credential
    at the cursor, and then, once the cursor is on the last credential, a
    summarization run keeps it there and makes every generation call with
    the last credential. *)
Theorem credential_cursor_invariant :
  current_key_index initial_world = 0 /\
  (forall w,
     reachable service unicode_lower console clock splitext fitz_open
               docx_Document open_read w ->
     current_key_index w < List.length GEMINI_API_KEYS) /\
  (forall w,
     let run := switch_to_next_key console w in
     (current_key_index (snd run) = current_key_index w \/
      current_key_index (snd run) = current_key_index w + 1) /\
     (fst run = Return true ->
      current_key_index (snd run) = current_key_index w + 1) /\
     (fst run = Return false -> snd run = w)) /\
  (forall w section_text retries delay,
     current_key_index w <=
     current_key_index
       (snd (summarize_section service unicode_lower console clock
                               section_text retries delay w))) /\
  (forall w text,
     current_key_index w <=
     current_key_index
       (snd (summarize_text_by_sections service unicode_lower console clock
                                        text w))) /\
  (forall w, exhausted w -> switch_to_next_key console w = (Return false, w)) /\
  (announces console ->
   forall w,
     reachable service unicode_lower console clock splitext fitz_open
               docx_Document open_read w ->
     synced w) /\
  (forall w text,
     exhausted w -> synced w ->
     let w' :=
       snd (summarize_text_by_sections service unicode_lower console clock
                                       text w) in
     exhausted w' /\ synced w' /\
     exists new,
       call_log w' = new ++ call_log w /\
       Forall (fun c => fst c = List.length GEMINI_API_KEYS - 1) new).
Proof.
  split; [reflexivity |].
  split; [intros w Hw; now apply reachable_in_pool |].
  split.
  { intro w. cbv zeta. unfold switch_to_next_key, bind, print.
    destruct (_ <? _).
    - world_simpl. destruct (console _ _); world_simpl.
      + split; [now right |]. split; [discriminate | discriminate].
      + split; [now right |]. split; [reflexivity | discriminate].
    - world_simpl. split; [now left |]. split; [discriminate | reflexivity]. }
  split.
  { intros w section_text retries delay.
    apply keeps_cursor_summarize_section. }
  split.
  { intros w text. apply keeps_cursor_summarize_text_by_sections. }
  split.
  { intros w Hlast. unfold exhausted in Hlast. unfold switch_to_next_key.
    destruct (Nat.ltb_spec (current_key_index w + 1) (List.length GEMINI_API_KEYS));
      [lia | reflexivity]. }
  split.
  { intros Hconsole w Hw. now apply reachable_synced. }
  intros w text Hlast Hsync w'.
  destruct (advances_exhausted w w' Hlast Hsync
              (keeps_cursor_summarize_text_by_sections service unicode_lower
                 console clock text w))
    as (Hsame & Hmodel & new & Hlog & Hall).
  unfold exhausted, synced in *. split; [lia |]. split; [lia |].
  exists new. split; [exact Hlog |].
  eapply Forall_impl; [| exact Hall]. cbn beta. intros c Hc. lia.
Qed.

End Cursor.

(** ** Trimming *)

Lemma lstrip_length (s : str) : List.length (lstrip s) <= List.length s.
Proof.
  induction s as [| c s IH]; cbn; [lia |].
  destruct (isspace c); cbn; lia.
Qed.

Lemma lstrip_idempotent (s : str) : lstrip (lstrip s) = lstrip s.
Proof.
  induction s as [| c s IH]; cbn; [reflexivity |].
  destruct (isspace c) eqn:Hc; [exact IH |].
  cbn. now rewrite Hc.
Qed.

(** A string that [lstrip] leaves alone is empty or starts with a
    character that is not whitespace. *)
Lemma lstrip_fixed_head (c : char) (s : str) :
  lstrip (c :: s) = c :: s -> isspace c = false.
Proof.
  cbn. destruct (isspace c); [| reflexivity].
  intro H. pose proof (lstrip_length s) as Hlen.
  rewrite H in Hlen. cbn in Hlen. lia.
Qed.

Lemma lstrip_snoc (s : str) (c : char) :
  isspace c = false -> lstrip (s ++ [c]) = lstrip s ++ [c].
Proof.
  intro Hc. induction s as [| d s IH]; cbn.
  - now rewrite Hc.
  - destruct (isspace d); [exact IH | reflexivity].
Qed.

Lemma lstrip_rstrip (s : str) : lstrip s = s -> lstrip (rstrip s) = rstrip s.
Proof.
  destruct s as [| c s]; [reflexivity |].
  intro Hfix. apply lstrip_fixed_head in Hfix.
  unfold rstrip. cbn [rev].
  rewrite lstrip_snoc by exact Hfix.
  rewrite rev_app_distr. cbn. now rewrite Hfix.
Qed.

Lemma lstrip_strip (s : str) : lstrip (strip s) = strip s.
Proof. unfold strip. apply lstrip_rstrip, lstrip_idempotent. Qed.

Lemma lstrip_rev_strip (s : str) : lstrip (rev (strip s)) = rev (strip s).
Proof.
  unfold strip, rstrip. rewrite rev_involutive. apply lstrip_idempotent.
Qed.

(** [(part.strip() + "\n").strip()] is [part.strip()]: what the splitter
    stores for a buffer that holds one part. *)
Lemma strip_line (s : str) : strip (strip s ++ [NL]) = strip s.
Proof.
  pose proof (lstrip_strip s) as Hhead.
  pose proof (lstrip_rev_strip s) as Htail.
  destruct (strip s) as [| c u] eqn:Hu; [reflexivity |].
  apply lstrip_fixed_head in Hhead.
  unfold strip at 1. cbn [app lstrip]. rewrite Hhead.
  unfold rstrip. change (c :: u ++ [NL]) with ((c :: u) ++ [NL]).
  rewrite rev_app_distr. cbn [rev app lstrip].
  change (isspace NL) with true. cbn iota.
  cbn [rev] in Htail. rewrite Htail.
  rewrite rev_app_distr, rev_involutive. reflexivity.
Qed.

(** ** The heading pattern and the split *)

Lemma match_tail_bound (s : str) (k : nat) :
  match_tail s = Some k -> k <= List.length s.
Proof.
  destruct s as [| c s]; cbn.
  - intros [= <-]. lia.
  - destruct ((c =? COLON)%N && at_eol s); [intros [= <-]; lia |].
    destruct (c =? NL)%N; [intros [= <-]; lia | discriminate].
Qed.

Lemma match_class_bound (s : str) :
  forall taken n,
    match_class s taken = Some n -> 2 <= n <= taken + List.length s.
Proof.
  assert (Hfinish : forall (t : str) taken n,
    (if (2 <=? taken)%nat
     then option_map (Nat.add taken) (match_tail t) else None) = Some n ->
    2 <= n <= taken + List.length t).
  { intros t taken n. destruct (Nat.leb_spec 2 taken); [| discriminate].
    destruct (match_tail t) as [k |] eqn:Hk; [| discriminate].
    apply match_tail_bound in Hk. cbn. intros [= <-]. lia. }
  induction s as [| c s IH]; intros taken n; cbn [match_class].
  - apply Hfinish.
  - destruct (in_class c); [| apply Hfinish].
    destruct (match_class s (S taken)) as [m |] eqn:Hm.
    + intros [= <-]. apply IH in Hm. cbn [List.length]. lia.
    + apply Hfinish.
Qed.

(** A match has at least three characters and lies inside the text. *)
Lemma match_here_bound (s : str) (n : nat) :
  match_here s = Some n -> 3 <= n <= List.length s.
Proof.
  destruct s as [| c s]; cbn [match_here]; [discriminate |].
  destruct (is_upper c); [| discriminate].
  destruct (match_class s 0) as [m |] eqn:Hm; [| discriminate].
  apply match_class_bound in Hm. cbn. intros [= <-]. lia.
Qed.

(** The search never runs out of fuel: any two amounts above the length of
    the text give the same split. *)
Lemma split_from_fuel (fuel : nat) :
  forall fuel' bol s cur,
    List.length s < fuel -> List.length s < fuel' ->
    split_from fuel bol s cur = split_from fuel' bol s cur.
Proof.
  induction fuel as [| fuel IH]; intros fuel' bol s cur Hf Hf'; [lia |].
  destruct fuel' as [| fuel']; [lia |].
  cbn [split_from]. destruct s as [| c s]; [reflexivity |].
  destruct (if bol then match_here (c :: s) else None) as [n |] eqn:Hm.
  - assert (Hn : 3 <= n <= List.length (c :: s)).
    { destruct bol; [now apply match_here_bound | discriminate]. }
    do 2 f_equal. apply IH; rewrite length_skipn; lia.
  - cbn [List.length] in *. apply IH; lia.
Qed.

(** The pieces of a split put together again are the text. *)
Lemma split_from_concat (fuel : nat) :
  forall bol s cur, List.concat (split_from fuel bol s cur) = rev cur ++ s.
Proof.
  induction fuel as [| fuel IH]; intros bol s cur; cbn [split_from].
  - cbn. apply app_nil_r.
  - destruct s as [| c s]; [cbn; now rewrite app_nil_r |].
    destruct (if bol then match_here (c :: s) else None) as [n |].
    + cbn [List.concat]. rewrite IH. cbn [rev app].
      now rewrite firstn_skipn.
    + rewrite IH. cbn [rev]. now rewrite <- app_assoc.
Qed.

(** A split is a leading text followed by headings, each with its text. *)
Lemma split_from_shape (fuel : nat) :
  forall bol s cur,
    exists t0 pairs, split_from fuel bol s cur = t0 :: interleave pairs.
Proof.
  induction fuel as [| fuel IH]; intros bol s cur; cbn [split_from].
  - exists (rev cur ++ s), []. reflexivity.
  - destruct s as [| c s]; [exists (rev cur), []; reflexivity |].
    destruct (if bol then match_here (c :: s) else None) as [n |].
    + destruct (IH (ends_line (firstn n (c :: s))) (skipn n (c :: s)) [])
        as (t & pairs & E).
      exists (rev cur), ((firstn n (c :: s), t) :: pairs).
      rewrite E. reflexivity.
    + apply IH.
Qed.

(** ** The section splitter *)

Lemma split_step_heading (heading buffer part : str) (sections : list section) :
  pattern_match (strip part) = true ->
  split_step (heading, buffer, sections) part
    = (strip part, [], flush heading buffer sections).
Proof. intro H. unfold split_step. now rewrite H. Qed.

Lemma split_step_text (heading buffer part : str) (sections : list section) :
  pattern_match (strip part) = false ->
  split_step (heading, buffer, sections) part
    = (heading, buffer ++ strip part ++ [NL], sections).
Proof. intro H. unfold split_step. now rewrite H. Qed.

(** Closing a section whose buffer holds one part. *)
Lemma flush_line (heading body : str) (sections : list section) :
  flush heading (strip body ++ [NL]) sections
    = sections ++ [(heading, strip body)].
Proof.
  unfold flush. rewrite strip_line.
  now destruct (strip body).
Qed.

(** The loop over headings that are recognised again once trimmed, each
    followed by a text that is not taken for a heading: every heading closes
    the section before it. *)
Lemma fold_regular_pairs (pairs : list (str * str)) :
  Forall regular_pair pairs ->
  forall heading body sections,
    (let '(current_heading, buffer, done) :=
       fold_left split_step (interleave pairs)
                 (heading, strip body ++ [NL], sections) in
     flush current_heading buffer done)
    = sections ++ (heading, strip body)
        :: map (fun p => (strip (fst p), strip (snd p))) pairs.
Proof.
  induction 1 as [| [h t] pairs [Hh Ht] _ IH]; intros heading body sections.
  - cbn [interleave fold_left map]. apply flush_line.
  - cbn [interleave fold_left map fst snd] in *.
    rewrite split_step_heading by exact Hh.
    rewrite split_step_text by exact Ht.
    cbn [app]. rewrite IH, flush_line, <- app_assoc. reflexivity.
Qed.

(** X2. The split of a text is never the empty list, so the paragraph branch of
    [split_into_sections] is never taken; the pieces are a leading text and
    headings with their texts, and put together they are the input. *)
Theorem pattern_split_pieces (text : str) :
  (exists t0 pairs, pattern_split text = t0 :: interleave pairs) /\
  List.concat (pattern_split text) = text /\
  split_into_sections text =
    (let '(current_heading, buffer, sections) :=
       fold_left split_step (pattern_split text) (lit "Introduction", [], []) in
     flush current_heading buffer sections).
Proof.
  unfold split_into_sections, pattern_split.
  destruct (split_from_shape (S (List.length text)) true text [])
    as (t0 & pairs & E).
  split; [now exists t0, pairs |].
  split; [apply split_from_concat |].
  rewrite E. reflexivity.
Qed.

(** X1. When the leading text, trimmed, is not taken for a heading, every
    captured heading is recognised again once trimmed and no text between
    headings is taken for one, the sections are the leading text under
    "Introduction" followed by one section per heading, in input order, each
    with the trimmed text behind it. *)
Theorem split_into_sections_regular (text t0 : str) (pairs : list (str * str)) :
  pattern_split text = t0 :: interleave pairs ->
  pattern_match (strip t0) = false ->
  Forall regular_pair pairs ->
  split_into_sections text =
    (lit "Introduction", strip t0)
      :: map (fun p => (strip (fst p), strip (snd p))) pairs.
Proof.
  intros Hsplit Hlead Hpairs. unfold split_into_sections.
  rewrite Hsplit. cbn [fold_left].
  rewrite split_step_text by exact Hlead. cbn [app].
  now rewrite fold_regular_pairs.
Qed.

Lemma split_into_sections_regular_example :
  split_into_sections two_sections =
    [ (lit "Introduction", lit "");
      (lit "INTRODUCTION",
       lit "This is a short test document with enough words to pass the filter threshold easily.");
      (lit "CONCLUSION",
       lit "All done here today for testing purposes only right now.") ].
Proof.
  apply (split_into_sections_regular two_sections (lit "")
    [ (lit "INTRODUCTION",
       lit "\nThis is a short test document with enough words to pass the filter threshold easily.\n\n");
      (lit "CONCLUSION",
       lit "\nAll done here today for testing purposes only right now.") ]).
  - vm_compute. reflexivity.
  - vm_compute. reflexivity.
  - repeat constructor.
Defined.

(** X3. A text in which the pattern finds no heading is never cut into
    paragraphs: it is one section "Introduction" holding the whole trimmed
    text, or no section at all when the trimmed text begins with a heading. *)
Theorem split_into_sections_without_heading (text : str) :
  pattern_split text = [text] ->
  split_into_sections text =
    if pattern_match (strip text) then []
    else [(lit "Introduction", strip text)].
Proof.
  intro Hsplit. unfold split_into_sections. rewrite Hsplit.
  cbn [fold_left]. destruct (pattern_match (strip text)) eqn:Hm.
  - rewrite split_step_heading by exact Hm. reflexivity.
  - rewrite split_step_text by exact Hm. cbn [app]. apply flush_line.
Qed.

Lemma split_into_sections_without_heading_example :
  split_into_sections two_paragraphs
    = [(lit "Introduction", lit "First paragraph.\n\nSecond paragraph.")].
Proof.
  rewrite (split_into_sections_without_heading two_paragraphs).
  - vm_compute. reflexivity.
  - vm_compute. reflexivity.
Defined.

(** The state of the splitter loop from which the first section is headed
    "Introduction". *)
Lemma fold_keeps_introduction (parts : list str) :
  forall heading buffer sections,
    (sections = [] /\ heading = lit "Introduction" /\ truthy buffer = true) \/
    (exists body more, sections = (lit "Introduction", body) :: more) ->
    exists body more,
      (let '(current_heading, buffer', done) :=
         fold_left split_step parts (heading, buffer, sections) in
       flush current_heading buffer' done)
      = (lit "Introduction", body) :: more.
Proof.
  induction parts as [| part parts IH]; intros heading buffer sections Hinv.
  - cbn [fold_left]. unfold flush.
    destruct Hinv as [(-> & -> & ->) | (body & more & ->)].
    + eexists; eexists; reflexivity.
    + destruct (truthy buffer); eexists; eexists; reflexivity.
  - cbn [fold_left]. destruct (pattern_match (strip part)) eqn:Hm.
    + rewrite split_step_heading by exact Hm. apply IH. right.
      unfold flush.
      destruct Hinv as [(-> & -> & ->) | (body & more & ->)].
      * eexists; eexists; reflexivity.
      * destruct (truthy buffer); eexists; eexists; reflexivity.
    + rewrite split_step_text by exact Hm. apply IH.
      destruct Hinv as [(-> & -> & _) | Hdone]; [left | now right].
      repeat split. destruct buffer; [destruct (strip part) |]; reflexivity.
Qed.

(** X4. Whenever the text before the first heading (the whole text, if there
    is none) is not itself taken for a heading once trimmed, the first
    section is headed "Introduction". *)
Theorem first_section_is_introduction (text t0 : str) (rest : list str) :
  pattern_split text = t0 :: rest ->
  pattern_match (strip t0) = false ->
  exists body more,
    split_into_sections text = (lit "Introduction", body) :: more.
Proof.
  intros Hsplit Hlead. unfold split_into_sections. rewrite Hsplit.
  cbn [fold_left]. rewrite split_step_text by exact Hlead.
  apply fold_keeps_introduction. left. repeat split.
  cbn [app]. now destruct (strip t0).
Qed.

Lemma first_section_is_introduction_example :
  exists body more,
    split_into_sections two_sections = (lit "Introduction", body) :: more.
Proof.
  apply (first_section_is_introduction two_sections (lit "")
           (List.tl (pattern_split two_sections))).
  - vm_compute. reflexivity.
  - vm_compute. reflexivity.
Defined.

(** C8, as the code has it.  For the empty text the split is the one
    empty piece, and [split_into_sections] returns one section, whose body
    is empty; the paragraph branch of the code gives a list of the same
    shape. *)
Theorem empty_text_gives_one_empty_section :
  pattern_split (lit "") = [lit ""] /\
  List.length (split_into_sections (lit "")) = 1 /\
  map snd (split_into_sections (lit "")) = [lit ""] /\
  map snd (paragraph_sections (lit "")) = [lit ""].
Proof. repeat split; vm_compute; reflexivity. Qed.

(** C8 as stated fails: the section list of the empty text has one
    element. *)
Lemma empty_text_section_list_not_empty :
  List.length (split_into_sections (lit "")) = 1 /\
  split_into_sections (lit "") <> [].
Proof. split; [reflexivity | discriminate]. Qed.

(** C7 on a text of two paragraphs without a heading: the split is the
    whole text, the heading branch is taken and the result is one section
    "Introduction"; the paragraph branch, which is not reached, would have
    given "Section 1" and "Section 2". *)
Theorem two_paragraphs_stay_one_section :
  pattern_split two_paragraphs = [two_paragraphs] /\
  split_into_sections two_paragraphs
    = [(lit "Introduction", lit "First paragraph.\n\nSecond paragraph.")] /\
  paragraph_sections two_paragraphs
    = [ (lit "Section 1", lit "First paragraph.");
        (lit "Section 2", lit "Second paragraph.") ].
Proof. repeat split; vm_compute; reflexivity. Qed.

(** C2 on a text whose title line is indented: the text before the first
    heading is taken for a heading once trimmed, its section is never
    stored, and neither an "Introduction" section nor the leading text is
    in the result. *)
Theorem indented_title_loses_leading_text :
  pattern_split indented_title
    = [ lit "  KMRL REPORT\nPrepared by the office.\n";
        lit "SUMMARY"; lit "\nAll fine." ] /\
  pattern_match (strip (lit "  KMRL REPORT\nPrepared by the office.\n")) = true /\
  split_into_sections indented_title = [(lit "SUMMARY", lit "All fine.")].
Proof. repeat split; vm_compute; reflexivity. Qed.

(** C10 on a text that begins with an indented heading line: the first
    (and only) section is headed "SUMMARY", not "Introduction". *)
Theorem indented_heading_has_no_introduction :
  pattern_split indented_heading
    = [lit "  ANNUAL REPORT\n"; lit "SUMMARY"; lit "\nAll fine."] /\
  split_into_sections indented_heading = [(lit "SUMMARY", lit "All fine.")].
Proof. repeat split; vm_compute; reflexivity. Qed.

(** ** The order of the sections *)

Lemma subseq_refl {A} (l : list A) : subseq l l.
Proof. induction l; constructor; assumption. Qed.

Lemma subseq_weaken {A} (l m k : list A) : subseq l m -> subseq l (m ++ k).
Proof. induction 1; cbn; constructor; assumption. Qed.

Lemma subseq_app {A} (l1 m1 l2 m2 : list A) :
  subseq l1 m1 -> subseq l2 m2 -> subseq (l1 ++ l2) (m1 ++ m2).
Proof.
  intros H1 H2. induction H1 as [m1 | x l1 m1 _ IH | x l1 m1 _ IH]; cbn.
  - induction m1 as [| x m1 IH]; cbn; [exact H2 | now constructor].
  - now constructor.
  - now constructor.
Qed.

(** Closing a section adds the current heading or nothing. *)
Lemma flush_headings (heading buffer : str) (sections : list section)
    (before after : list str) :
  subseq (map fst sections) before ->
  subseq (map fst (flush heading buffer sections)) (before ++ heading :: after).
Proof.
  intro Hsub. unfold flush. destruct (truthy buffer).
  - rewrite map_app. apply subseq_app; [exact Hsub |].
    cbn [map fst]. apply subseq_take, subseq_nil.
  - now apply subseq_weaken.
Qed.

(** Through the loop the headings of the stored sections come from the
    pieces seen before the current heading, in their order. *)
Lemma fold_headings_in_order (parts : list str) :
  forall heading buffer sections before after,
    subseq (map fst sections) before ->
    subseq
      (map fst
         (let '(current_heading, buffer', done) :=
            fold_left split_step parts (heading, buffer, sections) in
          flush current_heading buffer' done))
      (before ++ heading :: after ++ map strip parts).
Proof.
  induction parts as [| part parts IH];
    intros heading buffer sections before after Hsub.
  - cbn [fold_left map]. rewrite app_nil_r. now apply flush_headings.
  - cbn [fold_left map]. destruct (pattern_match (strip part)) eqn:Hm.
    + rewrite split_step_heading by exact Hm.
      replace (before ++ heading :: after ++ strip part :: map strip parts)
        with ((before ++ heading :: after) ++ strip part :: [] ++ map strip parts)
        by (rewrite <- app_assoc; reflexivity).
      apply IH. now apply flush_headings.
    + rewrite split_step_text by exact Hm.
      replace (after ++ strip part :: map strip parts)
        with ((after ++ [strip part]) ++ map strip parts)
        by (rewrite <- app_assoc; reflexivity).
      now apply IH.
Qed.

(** X6. For every text the headings of the returned sections, in their
    order, are the implicit "Introduction" and trimmed pieces of the split
    with some left out: the order of the sections is the order of the
    input. *)
Theorem section_headings_in_input_order (text : str) :
  subseq (map fst (split_into_sections text))
         (lit "Introduction" :: map strip (pattern_split text)).
Proof.
  unfold split_into_sections.
  destruct (pattern_split text) as [| t0 rest] eqn:Hsplit.
  - exfalso. unfold pattern_split in Hsplit.
    destruct (split_from_shape (S (List.length text)) true text [])
      as (t & pairs & E).
    congruence.
  - apply (fold_headings_in_order (t0 :: rest) (lit "Introduction") [] [] [] []).
    apply subseq_nil.
Qed.

(** ** What a section summary can be *)

Section Outcomes.

Variable service : nat -> nat -> str -> outcome.
Variable unicode_lower : str -> str.
Variable console : list str -> str -> option exn.
Variable clock : list Z -> Z -> option exn.

(** A round that returns a summary returns the trimmed, non-empty text of
    the response to its call. *)
Lemma attempt_returned (p : str) (attempt_no : nat) (retries : Z)
    (w w1 : world) (summary : str) :
  attempt service unicode_lower console p attempt_no retries w
    = (Return (Returned summary), w1) ->
  exists r,
    service (calls w) (gemini_model w) p = Responds r /\
    summary = response_text r /\ truthy summary = true.
Proof.
  unfold attempt, try_except, bind, generate_content, calls.
  destruct (service _ _ _) as [r | e].
  - destruct (truthy (response_text r)) eqn:Ht.
    + intros [= <- _]. now exists r.
    + unfold print. world_simpl. destruct (console _ _) as [e |].
      * destruct (contains _ _).
        -- unfold switch_to_next_key, bind, print.
           destruct (_ <? _)%nat; world_simpl;
             repeat (destruct (console _ _)); discriminate.
        -- unfold ret. destruct (console _ _); discriminate.
      * discriminate.
  - destruct (contains _ _).
    + unfold switch_to_next_key, bind, print.
      destruct (_ <? _)%nat; world_simpl;
        repeat (destruct (console _ _)); discriminate.
    + unfold ret, print. destruct (console _ _); discriminate.
Qed.

(** Whatever the retry loop returns is a summary of the prompt. *)
Lemma attempts_summary (p : str) (retries delay : Z) :
  forall rounds w s w',
    attempts service unicode_lower console clock p retries rounds delay w
      = (Return s, w') ->
    summary_of service p s.
Proof.
  induction rounds as [| attempt_no rounds IH]; intros w s w'.
  - cbn [attempts]. unfold ret. intro H. right. left. congruence.
  - cbn [attempts]. unfold bind at 1.
    destruct (attempt service unicode_lower console p attempt_no retries w)
      as [[[summary | |] | e] w1] eqn:Hround.
    + unfold ret. intro H. assert (Hs : s = summary) by congruence.
      subst s. right. right.
      destruct (attempt_returned _ _ _ _ _ _ Hround) as (r & Hcall & Hs & Ht).
      now exists (calls w), (gemini_model w), r.
    + apply IH.
    + unfold bind.
      destruct (time_sleep_cases clock delay w1) as [-> | [e ->]];
        [apply IH | discriminate].
    + discriminate.
Qed.


End Outcomes.


(** ** The statements at concrete inputs *)



Lemma short_section_makes_no_call_witness :
  summarize_section stub_empty ascii_only_lower utf8_console sample_clock
                    (lit "STRAY HEADING") 3 5 initial_world
    = (Return [], initial_world) /\
  call_log (snd (summarize_section stub_empty ascii_only_lower utf8_console
                                   sample_clock (lit "STRAY HEADING") 3 5
                                   initial_world))
    = call_log initial_world.
Proof.
  apply (short_section_makes_no_call stub_empty ascii_only_lower utf8_console
                                     sample_clock (lit "STRAY HEADING") 3 5
                                     initial_world).
  vm_compute. repeat constructor.
Defined.

Lemma always_empty_exhausts_retries_witness :
  summarize_section stub_empty ascii_only_lower quiet_console sample_clock
                    ten_words 3 5 initial_world =
    (Return SUMMARY_FAILED,
     {| current_key_index := 0;
        gemini_model := 0;
        call_log := [(0, prompt ten_words); (0, prompt ten_words);
                     (0, prompt ten_words)];
        sleep_log := [5; 5; 5]%Z;
        print_log := [retrying_message 2 3; retrying_message 1 3;
                      retrying_message 0 3] |}) /\
  calls (snd (summarize_section stub_empty ascii_only_lower quiet_console
                                sample_clock ten_words 3 5 initial_world))
    = 3.
Proof.
  assert (Hwords : 10 <= List.length (str_split (strip ten_words))).
  { vm_compute. constructor. }
  assert (Hclock : sleeps sample_clock 5).
  { left. lia. }
  assert (Hconsole : takes_retries quiet_console 3).
  { intros written attempt_no. reflexivity. }
  destruct (always_empty_exhausts_retries stub_empty ascii_only_lower
              quiet_console sample_clock ten_words 3 5
              initial_world Hwords ltac:(lia) Hclock Hconsole
              (fun _ _ _ => eq_refl))
    as (Hrun & Hcalls & _).
  split.
  - rewrite Hrun. vm_compute. reflexivity.
  - apply Nat2Z.inj. rewrite Hcalls. vm_compute. reflexivity.
Defined.

(** C4 as stated fails.  With a negative delay the first sleep raises
    [ValueError]; and on a standard output encoded in ASCII neither the
    retry message nor the report of its failure can be written, and the
    second [UnicodeEncodeError] leaves [summarize_section] after one
    call. *)
Lemma always_empty_can_raise :
  summarize_section stub_empty ascii_only_lower quiet_console sample_clock
                    ten_words 3 (-1) initial_world
    = (Raise (ValueError (lit "sleep length must be non-negative")),
       printed (retrying_message 0 3)
               (called (0, prompt ten_words) initial_world)) /\
  summarize_section stub_empty ascii_only_lower ascii_console sample_clock
                    ten_words 3 5 initial_world
    = (Raise (UnicodeEncodeError
                (lit "'ascii' codec can't encode character '\u274c' in position 0: ordinal not in range(128)")),
       called (0, prompt ten_words) initial_world).
Proof. evaluate. Qed.

Lemma quota_error_rotates_and_retries_witness :
  summarize_section (stub_quota_then (lit " ok ")) ascii_only_lower
                    utf8_console sample_clock ten_words 3 5 initial_world =
    (Return (lit "ok"),
     {| current_key_index := 1;
        gemini_model := 1;
        call_log := [(1, prompt ten_words); (0, prompt ten_words)];
        sleep_log := [];
        print_log := [switching_message 1] |}).
Proof.
  rewrite (quota_error_rotates_and_retries (stub_quota_then (lit " ok "))
             ascii_only_lower utf8_console sample_clock ten_words 3 5
             initial_world
             {| candidates := Some [ {| content_parts := [lit " ok "] |} ] |}).
  - vm_compute. reflexivity.
  - vm_compute. constructor.
  - lia.
  - vm_compute. repeat constructor.
  - vm_compute. reflexivity.
  - vm_compute. reflexivity.
  - vm_compute. reflexivity.
  - vm_compute. reflexivity.
Defined.

(** C5 as stated fails.  After a quota error the second call answers with
    the non-empty text " "; the cursor has advanced by one, but the text is
    not returned: it is empty once trimmed, the loop sleeps, goes on, and the
    retry budget is used up.  And where the announcement of the switch
    cannot be written, the second call is never made. *)
Lemma quota_then_answer_not_returned :
  quota_error ascii_only_lower
              (stub_quota_then (lit " ") 0 0 (prompt ten_words)) = true /\
  stub_quota_then (lit " ") 1 1 (prompt ten_words) = answer (lit " ") /\
  summarize_section (stub_quota_then (lit " ")) ascii_only_lower utf8_console
                    sample_clock ten_words 3 5 initial_world =
    (Return SUMMARY_FAILED,
     {| current_key_index := 1;
        gemini_model := 1;
        call_log := [(1, prompt ten_words); (1, prompt ten_words);
                     (0, prompt ten_words)];
        sleep_log := [5; 5]%Z;
        print_log := [retrying_message 2 3; retrying_message 1 3;
                      switching_message 1] |}) /\
  summarize_section (stub_quota_then (lit "ok")) ascii_only_lower
                    ascii_console sample_clock ten_words 3 5 initial_world =
    (Raise (UnicodeEncodeError
              (lit "'ascii' codec can't encode character '\U0001f511' in position 0: ordinal not in range(128)")),
     {| current_key_index := 1;
        gemini_model := 0;
        call_log := [(0, prompt ten_words)];
        sleep_log := [];
        print_log := [] |}).
Proof. evaluate. Qed.



(** C6 as stated fails.  On a service out of quota and a standard output
    encoded in ASCII every switch is cut short at its announcement: after
    two runs the cursor is on the last credential and the model object
    still holds the first, and the call of the third run is made with the
    first credential. *)
Lemma cut_short_switch_leaves_old_credential :
  exhausted (quota_run (quota_run initial_world)) /\
  gemini_model (quota_run (quota_run initial_world)) = 0 /\
  call_log (quota_run (quota_run (quota_run initial_world)))
    = [(0, prompt ten_words); (0, prompt ten_words); (0, prompt ten_words)].
Proof. evaluate. Qed.

(** * The web layer and the rest of the summarizer module *)

(** ** Dicts *)

Lemma str_eqb_eq (a b : str) : str_eqb a b = true <-> a = b.
Proof.
  unfold str_eqb. destruct (list_eq_dec N.eq_dec a b); split; congruence.
Qed.

Lemma str_eqb_refl (a : str) : str_eqb a a = true.
Proof. now apply str_eqb_eq. Qed.

Lemma str_eqb_neq (a b : str) : a <> b -> str_eqb a b = false.
Proof.
  intro H. destruct (str_eqb a b) eqn:E; [| reflexivity].
  apply str_eqb_eq in E. contradiction.
Qed.

Lemma dict_get_remove_same (k : str) (d : pydict) :
  dict_get k (dict_remove k d) = None.
Proof.
  induction d as [| [k' v] d IH]; cbn; [reflexivity |].
  destruct (str_eqb k' k) eqn:E; cbn; [exact IH |].
  now rewrite E.
Qed.

Lemma dict_get_remove_other (k j : str) (d : pydict) :
  j <> k -> dict_get j (dict_remove k d) = dict_get j d.
Proof.
  intro Hjk. induction d as [| [k' v] d IH]; cbn; [reflexivity |].
  destruct (str_eqb k' k) eqn:E; cbn.
  - apply str_eqb_eq in E. subst k'.
    rewrite (str_eqb_neq k j) by congruence. exact IH.
  - destruct (str_eqb k' j); [reflexivity | exact IH].
Qed.

Lemma dict_get_set_same (k : str) (v : value) (d : pydict) :
  dict_get k (dict_set k v d) = Some v.
Proof.
  induction d as [| [k' v'] d IH]; cbn.
  - now rewrite str_eqb_refl.
  - destruct (str_eqb k' k) eqn:E; cbn.
    + now rewrite str_eqb_refl.
    + now rewrite E.
Qed.

Lemma dict_get_set_other (k j : str) (v : value) (d : pydict) :
  j <> k -> dict_get j (dict_set k v d) = dict_get j d.
Proof.
  intro Hjk. induction d as [| [k' v'] d IH]; cbn.
  - now rewrite (str_eqb_neq k j) by congruence.
  - destruct (str_eqb k' k) eqn:E; cbn.
    + apply str_eqb_eq in E. subst k'.
      now rewrite (str_eqb_neq k j) by congruence.
    + destruct (str_eqb k' j); [reflexivity | exact IH].
Qed.

(** Setting a key that is not there puts it last. *)
Lemma dict_set_absent (k : str) (v : value) (d : pydict) :
  dict_get k d = None -> dict_set k v d = d ++ [(k, v)].
Proof.
  induction d as [| [k' v'] d IH]; cbn; [reflexivity |].
  destruct (str_eqb k' k); [discriminate |].
  intro H. now rewrite IH.
Qed.

Lemma dict_remove_absent (k : str) (d : pydict) :
  dict_get k d = None -> dict_remove k d = d.
Proof.
  induction d as [| [k' v'] d IH]; cbn; [reflexivity |].
  destruct (str_eqb k' k); [discriminate |].
  intro H. cbn. f_equal. now apply IH.
Qed.

Lemma dict_remove_last (k : str) (v : value) (d : pydict) :
  dict_remove k (d ++ [(k, v)]) = dict_remove k d.
Proof.
  unfold dict_remove. rewrite filter_app. cbn [filter fst].
  rewrite str_eqb_refl. cbn [negb]. apply app_nil_r.
Qed.

Lemma dict_remove_keys (k : str) (d : pydict) :
  map fst (dict_remove k d)
    = filter (fun j => negb (str_eqb j k)) (map fst d).
Proof.
  induction d as [| [k' v'] d IH]; cbn; [reflexivity |].
  destruct (str_eqb k' k); cbn; [| f_equal]; exact IH.
Qed.

Lemma well_formed_remove (k : str) (d : pydict) :
  well_formed d -> well_formed (dict_remove k d).
Proof.
  unfold well_formed. rewrite dict_remove_keys. apply NoDup_filter.
Qed.

Lemma dict_get_None_keys (k : str) (d : pydict) :
  dict_get k d = None -> ~ In k (map fst d).
Proof.
  induction d as [| [k' v'] d IH]; cbn; [tauto |].
  destruct (str_eqb k' k) eqn:E; [discriminate |].
  intros H [Hk | Hin]; [| now apply IH].
  subst. now rewrite str_eqb_refl in E.
Qed.

Lemma NoDup_snoc {A} (l : list A) (x : A) :
  NoDup l -> ~ In x l -> NoDup (l ++ [x]).
Proof.
  induction 1 as [| y l Hy Hl IH]; cbn; intro Hx.
  - constructor; [intros [] | constructor].
  - constructor.
    + rewrite in_app_iff. cbn. intuition congruence.
    + apply IH. tauto.
Qed.

(** ** Rendering the identifier of a record *)

(** What the loop of [get_all_documents] makes of a record: the identifier
    is moved to the end as a str. *)
Lemma render_id_moves_last (doc : pydict) (id : value) :
  dict_get (lit "_id") doc = Some id ->
  render_id doc
    = dict_remove (lit "_id") doc ++ [(lit "_id", VStr (value_str id))].
Proof.
  intro H. unfold render_id. rewrite H.
  apply dict_set_absent, dict_get_remove_same.
Qed.

(** X9. Rendering the identifiers of a record a second time changes
    nothing: a record that went through [get_all_documents] can go
    through it again. *)
Theorem render_id_idempotent (doc : pydict) :
  render_id (render_id doc) = render_id doc.
Proof.
  destruct (dict_get (lit "_id") doc) as [id |] eqn:H.
  - rewrite (render_id_moves_last doc id H).
    set (rest := dict_remove (lit "_id") doc).
    assert (Hrest : dict_get (lit "_id") rest = None)
      by apply dict_get_remove_same.
    assert (Hget : dict_get (lit "_id")
                     (rest ++ [(lit "_id", VStr (value_str id))])
                   = Some (VStr (value_str id))).
    { rewrite <- (dict_set_absent _ _ _ Hrest). apply dict_get_set_same. }
    rewrite (render_id_moves_last _ _ Hget). cbn [value_str].
    f_equal. rewrite dict_remove_last.
    apply (dict_remove_absent _ _ Hrest).
  - unfold render_id. rewrite H. unfold render_id. now rewrite H.
Qed.

Lemma render_id_rendered (doc : pydict) : rendered doc (render_id doc).
Proof.
  unfold rendered, render_id.
  destruct (dict_get (lit "_id") doc) as [id |] eqn:H.
  - split; [| split].
    + intros k Hk. rewrite dict_get_set_other by exact Hk.
      now apply dict_get_remove_other.
    + cbn. apply dict_get_set_same.
    + intro Hwf.
      rewrite dict_set_absent by apply dict_get_remove_same.
      unfold well_formed. rewrite map_app. apply NoDup_snoc.
      * now apply well_formed_remove.
      * apply dict_get_None_keys, dict_get_remove_same.
  - split; [| split]; [reflexivity | now rewrite H | tauto].
Qed.

Section Documents.

Variable E : environment.

(** X8. [get_all_documents] asks the store once.  If the store answers,
    at most 1000 records are returned, in the order of the store, each with
    every field other than the identifier unchanged and with the identifier,
    if it has one, replaced by its str.  If the store raises, the error is
    printed and the caller gets HTTP 500 "Database connection error on
    fetch."; only if the standard output does not take that text does
    another exception, the one of the print, reach the caller. *)
Theorem get_all_documents_renders (s : server) :
  (exists documents documents',
     env_find E (events s) = Return documents /\
     get_all_documents E s = (Ok documents', asked Find s) /\
     Forall2 rendered (firstn 1000 documents) documents' /\
     List.length documents' <= 1000) \/
  (exists e,
     env_find E (events s) = Raise e /\
     get_all_documents E s
       = match env_console E (print_log (process s)) (read_error_message e)
         with
         | None =>
             (HTTPException 500 (lit "Database connection error on fetch."),
              {| process := printed (read_error_message e) (process s);
                 events := Find :: events s |})
         | Some e' => (Uncaught e', asked Find s)
         end).
Proof.
  unfold get_all_documents, try_P, pbind, find_to_list, query, pret.
  destruct (env_find E (events s)) as [documents | e].
  - left. exists documents, (map render_id (firstn 1000 documents)).
    repeat split.
    + generalize (firstn 1000 documents). intro l.
      induction l; cbn; constructor; [apply render_id_rendered | assumption].
    + rewrite length_map. apply firstn_le_length.
  - right. exists e. split; [reflexivity |].
    unfold wbind, uncaught, server_print, in_process, print, raise_http.
    cbn [process events asked].
    destruct (env_console E _ _); reflexivity.
Qed.

End Documents.

(** ** Saving a record *)

Section SaveRecord.

Variable E : environment.

(** What [save_document_to_db] does: it reads the clock, hands the store
    the record with the clock's time and the path of the summary file,
    and answers with the id; if the store raises, it prints the error and
    answers with HTTP 500, or with the error of the print. *)
Lemma save_document_to_db_run (doc_data : DocumentData) (path : str)
    (s : server) :
  let now := env_utcnow E (events s) in
  let record :=
    [ (lit "title", VStr (title doc_data));
      (lit "url", VStr (url doc_data));
      (lit "summary", VStr (summary doc_data));
      (lit "uploadedBy", VStr (uploadedBy doc_data));
      (lit "uploadedAt", VStr now);
      (lit "summaryFilePath", VStr path) ] in
  save_document_to_db E doc_data path s =
    match env_insert E (UtcNow :: events s) record with
    | Return id =>
        (Ok [ (lit "message", VStr (lit "Document saved successfully."));
              (lit "_id", VStr (value_str id)) ],
         asked (InsertOne record) (asked UtcNow s))
    | Raise e =>
        match env_console E (print_log (process s)) (save_error_message e)
        with
        | None =>
            (HTTPException 500 (lit "Database connection error on save."),
             {| process := printed (save_error_message e) (process s);
                events := InsertOne record :: UtcNow :: events s |})
        | Some e' => (Uncaught e', asked (InsertOne record) (asked UtcNow s))
        end
    end.
Proof.
  cbv zeta.
  unfold save_document_to_db, wbind, uncaught, utcnow_isoformat, try_P,
    pbind, insert_one, server_print, in_process, print, query, pret,
    raise_http.
  cbn [events asked process].
  change (dict_set (lit "summaryFilePath") (VStr path)
            (dict_set (lit "uploadedAt") (VStr (env_utcnow E (events s)))
                      (DocumentData_dict doc_data)))
    with [ (lit "title", VStr (title doc_data));
           (lit "url", VStr (url doc_data));
           (lit "summary", VStr (summary doc_data));
           (lit "uploadedBy", VStr (uploadedBy doc_data));
           (lit "uploadedAt", VStr (env_utcnow E (events s)));
           (lit "summaryFilePath", VStr path) ].
  destruct (env_insert E _ _) as [id | e]; [reflexivity |].
  cbn [process events asked].
  destruct (env_console E _ _); reflexivity.
Qed.

(** The operations asked of the environment by a save do not depend on
    how it ends. *)
Lemma save_document_to_db_events (doc_data : DocumentData) (path : str)
    (s : server) :
  events (snd (save_document_to_db E doc_data path s))
    = InsertOne
        [ (lit "title", VStr (title doc_data));
          (lit "url", VStr (url doc_data));
          (lit "summary", VStr (summary doc_data));
          (lit "uploadedBy", VStr (uploadedBy doc_data));
          (lit "uploadedAt", VStr (env_utcnow E (events s)));
          (lit "summaryFilePath", VStr path) ]
        :: UtcNow :: events s.
Proof.
  rewrite save_document_to_db_run. cbv zeta.
  destruct (env_insert E _ _); [reflexivity |].
  destruct (env_console E _ _); reflexivity.
Qed.

(** X10. The [uploadedAt] a caller puts into the document data never
    reaches the store and has no effect at all: two calls of
    [save_document_to_db] whose data agree on the other four fields hand the
    store the same record, stamped with the clock's time at the save, and
    end in the same answer and state. *)
Theorem save_document_to_db_ignores_uploadedAt
    (doc_data doc_data' : DocumentData) (path : str) (s : server) :
  title doc_data = title doc_data' ->
  url doc_data = url doc_data' ->
  summary doc_data = summary doc_data' ->
  uploadedBy doc_data = uploadedBy doc_data' ->
  save_document_to_db E doc_data path s
    = save_document_to_db E doc_data' path s /\
  exists record,
    events (snd (save_document_to_db E doc_data path s))
      = InsertOne record :: UtcNow :: events s /\
    dict_get (lit "uploadedAt") record
      = Some (VStr (env_utcnow E (events s))) /\
    dict_get (lit "summaryFilePath") record = Some (VStr path).
Proof.
  intros Ht Hu Hs Hb. split.
  - rewrite !save_document_to_db_run. cbv zeta. now rewrite Ht, Hu, Hs, Hb.
  - rewrite save_document_to_db_events.
    eexists. split; [reflexivity |]. split; reflexivity.
Qed.

End SaveRecord.

(** ** The two ingestion endpoints *)

Section Ingestion.

Variable E : environment.

(** Steps 2 to 4 when the summarization raises: the failure is printed;
    the raw file is looked for and removed if it is there; nothing else is
    asked of the environment. *)
Lemma summarize_and_record_failed
    (raw base doc_url original : str) (e : exn) (w' : world) (s : server) :
  summarization E raw s = (Raise e, w') ->
  summarize_and_record E raw base doc_url original s =
    match env_console E (print_log w') (failure_message original e) with
    | Some e' => (Uncaught e', {| process := w'; events := events s |})
    | None =>
        let s1 := {| process := printed (failure_message original e) w';
                     events := events s |} in
        if env_exists E (events s) raw
        then
          (match env_remove E (PathExists raw :: events s) raw with
           | None =>
               HTTPException 500
                 (lit "Failed to generate summary: " ++ exn_str e)
           | Some e' => Uncaught e'
           end,
           asked (Remove raw) (asked (PathExists raw) s1))
        else
          (HTTPException 500 (lit "Failed to generate summary: " ++ exn_str e),
           asked (PathExists raw) s1)
    end.
Proof.
  unfold summarization. intro Hrun.
  unfold summarize_and_record, wbind at 1, try_P, summarize_document_call,
    in_process.
  rewrite Hrun.
  unfold summarization_failed, wbind, uncaught, server_print, in_process,
    print, os_path_exists, query.
  cbn [process events asked].
  destruct (env_console E _ _) as [e' |]; [reflexivity |].
  cbv zeta. cbn [process events asked].
  destruct (env_exists E (events s) raw).
  - unfold os_remove, command, raise_http. cbn [events asked].
    destruct (env_remove E (PathExists raw :: events s) raw); reflexivity.
  - reflexivity.
Qed.

(** Steps 2 to 4 when the summarization returns a summary: the folder is
    made, the summary written, the clock read twice and the record handed
    to the store; the first of these that fails ends the request, and
    nothing is undone. *)
Lemma summarize_and_record_summarized
    (raw base doc_url original summary_text : str) (w' : world) (s : server) :
  summarization E raw s = (Return summary_text, w') ->
  let s1 := {| process := w'; events := events s |} in
  let spath := summary_path E base in
  let s2 := asked (Makedirs (SUMMARY_FOLDER E)) s1 in
  let s3 := asked (WriteText spath summary_text) s2 in
  let s4 := asked UtcNow (asked UtcNow s3) in
  let record :=
    stored_record base doc_url summary_text
                  (env_utcnow E (UtcNow :: events s3)) spath in
  summarize_and_record E raw base doc_url original s =
    match env_makedirs E (events s) (SUMMARY_FOLDER E) with
    | Some e => (Uncaught e, s2)
    | None =>
        match env_write E (events s2) spath summary_text with
        | Some e => (Uncaught e, s3)
        | None =>
            match env_insert E (events s4) record with
            | Return id =>
                (Ok (ingestion_response original summary_text (value_str id)
                                        (env_basename E spath)),
                 asked (InsertOne record) s4)
            | Raise e =>
                match env_console E (print_log w') (save_error_message e) with
                | None =>
                    (HTTPException 500
                       (lit "Database connection error on save."),
                     {| process := printed (save_error_message e) w';
                        events := InsertOne record :: events s4 |})
                | Some e' => (Uncaught e', asked (InsertOne record) s4)
                end
            end
        end
    end.
Proof.
  unfold summarization. intros Hrun. cbv zeta.
  unfold summarize_and_record, wbind at 1, try_P, summarize_document_call,
    in_process.
  rewrite Hrun.
  unfold wbind at 1, uncaught at 1, save_summary, pbind, os_makedirs, command.
  cbn [events asked process].
  destruct (env_makedirs E (events s) (SUMMARY_FOLDER E)) as [e |];
    [reflexivity |].
  unfold write_text, command, pret. cbn [events asked process].
  destruct (env_write E _ _ summary_text) as [e |]; [reflexivity |].
  unfold wbind at 1, uncaught, utcnow_isoformat, query.
  cbn [events asked process].
  unfold wbind. rewrite save_document_to_db_run. cbv zeta.
  cbn [events asked process title url summary uploadedBy].
  unfold stored_record, ingestion_response, wret.
  destruct (env_insert E _ _); [reflexivity |].
  destruct (env_console E _ _); reflexivity.
Qed.

(** A finished request: the five operations of steps 3 and 4, in this
    order, after a summarization that returned. *)
Lemma summarize_and_record_ok
    (raw base doc_url original : str) (s : server) (response : pydict) :
  fst (summarize_and_record E raw base doc_url original s) = Ok response ->
  let s' := snd (summarize_and_record E raw base doc_url original s) in
  exists summary_text now id,
    summarization E raw s = (Return summary_text, process s') /\
    events s'
      = InsertOne (stored_record base doc_url summary_text now
                                  (summary_path E base))
          :: UtcNow :: UtcNow
          :: WriteText (summary_path E base) summary_text
          :: Makedirs (SUMMARY_FOLDER E) :: events s /\
    response
      = ingestion_response original summary_text id
                           (env_basename E (summary_path E base)).
Proof.
  cbv zeta.
  destruct (summarization E raw s) as [[summary_text | e] w'] eqn:Hrun.
  - rewrite (summarize_and_record_summarized _ _ _ _ _ _ _ Hrun).
    cbv zeta.
    destruct (env_makedirs E (events s) (SUMMARY_FOLDER E));
      [discriminate |].
    destruct (env_write E _ _ summary_text); [discriminate |].
    destruct (env_insert E _ _) as [id | e] eqn:Hins.
    + cbn [fst snd]. intro Hok.
      assert (Hresp : response
                      = ingestion_response original summary_text (value_str id)
                          (env_basename E (summary_path E base)))
        by congruence.
      eexists summary_text, _, (value_str id). split; [| split].
      * reflexivity.
      * reflexivity.
      * exact Hresp.
    + destruct (env_console E _ _); discriminate.
  - rewrite (summarize_and_record_failed _ _ _ _ _ _ _ Hrun).
    destruct (env_console E _ _); [discriminate |]. cbv zeta.
    destruct (env_exists E (events s) raw); [| discriminate].
    destruct (env_remove E _ raw); discriminate.
Qed.

(** A request that ends in an [HTTPException] after the raw file is in
    place: the summarization raised, its failure was printed and nothing
    was written; or the store refused the record after the summary file was
    written, and that was printed. *)
Lemma summarize_and_record_http
    (raw base doc_url original : str) (s : server) (code : Z) (detail : str) :
  fst (summarize_and_record E raw base doc_url original s)
    = HTTPException code detail ->
  let s' := snd (summarize_and_record E raw base doc_url original s) in
  code = 500%Z /\
  ((exists e,
      fst (summarization E raw s) = Raise e /\
      detail = lit "Failed to generate summary: " ++ exn_str e /\
      process s'
        = printed (failure_message original e) (snd (summarization E raw s)) /\
      (events s' = PathExists raw :: events s \/
       events s' = Remove raw :: PathExists raw :: events s)) \/
   (exists summary_text now e,
      fst (summarization E raw s) = Return summary_text /\
      detail = lit "Database connection error on save." /\
      process s'
        = printed (save_error_message e) (snd (summarization E raw s)) /\
      events s'
        = InsertOne (stored_record base doc_url summary_text now
                                    (summary_path E base))
            :: UtcNow :: UtcNow
            :: WriteText (summary_path E base) summary_text
            :: Makedirs (SUMMARY_FOLDER E) :: events s)).
Proof.
  cbv zeta.
  destruct (summarization E raw s) as [[summary_text | e] w'] eqn:Hrun.
  - rewrite (summarize_and_record_summarized _ _ _ _ _ _ _ Hrun).
    cbv zeta.
    destruct (env_makedirs E (events s) (SUMMARY_FOLDER E));
      [discriminate |].
    destruct (env_write E _ _ summary_text); [discriminate |].
    destruct (env_insert E _ _) as [id | e] eqn:Hins; [discriminate |].
    destruct (env_console E _ _); [discriminate |].
    cbn [fst snd process events]. intro Hhttp.
    assert (Hcode : code = 500%Z) by congruence.
    assert (Hdetail : detail = lit "Database connection error on save.")
      by congruence.
    split; [exact Hcode |].
    right. eexists summary_text, _, e.
    split; [reflexivity |]. split; [exact Hdetail |].
    split; reflexivity.
  - rewrite (summarize_and_record_failed _ _ _ _ _ _ _ Hrun).
    destruct (env_console E _ _); [discriminate |]. cbv zeta.
    destruct (env_exists E (events s) raw).
    + destruct (env_remove E _ raw); [discriminate |].
      cbn [fst snd process events asked]. intro Hhttp.
      assert (Hcode : code = 500%Z) by congruence.
      assert (Hdetail : detail
                        = lit "Failed to generate summary: " ++ exn_str e)
        by congruence.
      split; [exact Hcode |].
      left. exists e. split; [reflexivity |]. split; [exact Hdetail |].
      split; [reflexivity | now right].
    + cbn [fst snd process events asked]. intro Hhttp.
      assert (Hcode : code = 500%Z) by congruence.
      assert (Hdetail : detail
                        = lit "Failed to generate summary: " ++ exn_str e)
        by congruence.
      split; [exact Hcode |].
      left. exists e. split; [reflexivity |]. split; [exact Hdetail |].
      split; [reflexivity | now left].
Qed.

(** When extraction fails, that is the error of the summarization, and the
    process is as it was: no generation call was made and nothing
    printed. *)
Lemma summarization_extraction_raises (raw : str) (s : server) (e : exn) :
  read_document (env_unicode_lower E) (env_splitext E) (env_fitz_open E)
                (env_docx_Document E) (env_open_read E) raw = Raise e ->
  summarization E raw s = (Raise e, process s).
Proof. apply summarize_document_extraction_raises. Qed.

(** [upload_file_endpoint] is the storing of the upload followed by the
    shared steps. *)
Lemma upload_file_endpoint_run (file : UploadFile) (s : server) :
  let raw := env_join E (RAW_FOLDER E) (filename file) in
  upload_file_endpoint E file s =
    match env_store E (events s) raw (file_bytes file) with
    | Some e =>
        (HTTPException 500
           (lit "Failed to save uploaded file: " ++ exn_str e),
         asked (StoreUpload raw (file_bytes file)) s)
    | None =>
        summarize_and_record E raw (fst (env_splitext E (filename file)))
          (lit "local://" ++ filename file) (filename file)
          (asked (StoreUpload raw (file_bytes file)) s)
    end.
Proof.
  cbv zeta. unfold upload_file_endpoint.
  destruct (env_splitext E (filename file)) as [base ext]. cbn [fst].
  unfold wbind at 1, try_P at 1, store_upload, command, raise_http.
  destruct (env_store E (events s) _ (file_bytes file)); reflexivity.
Qed.

(** [ingest_url_endpoint] is the fetch followed by the shared steps. *)
Lemma ingest_url_endpoint_run (data : URLIngest) (s : server) :
  ingest_url_endpoint E data s =
    match env_fetch E (events s) (ingest_url data) with
    | Raise e => (Uncaught e, asked (FetchUrl (ingest_url data)) s)
    | Return answer =>
        if startswith (lit "Error") answer
        then (HTTPException 400 answer,
              asked (FetchUrl (ingest_url data)) s)
        else summarize_and_record E answer (ingest_filename data)
               (ingest_url data) (ingest_filename data)
               (asked (FetchUrl (ingest_url data)) s)
    end.
Proof.
  unfold ingest_url_endpoint.
  unfold wbind at 1, uncaught at 1, save_file_from_url, query.
  destruct (env_fetch E (events s) (ingest_url data)) as [answer | e];
    [| reflexivity].
  destruct (startswith (lit "Error") answer); reflexivity.
Qed.

(** X11. A successful upload did exactly six things, in this order: it
    stored the upload under the raw folder, made the summary folder, wrote
    the summary file, read the clock twice and handed the store one record.
    The summary the pipeline returned is, unchanged, the text written to
    the file, the [summary] of the record and the [summary_content] of the
    response; the record names the file that was written, and the response
    names that file's base name and the id the store gave. *)
Theorem upload_file_endpoint_success (file : UploadFile) (s : server)
    (response : pydict) :
  fst (upload_file_endpoint E file s) = Ok response ->
  let s' := snd (upload_file_endpoint E file s) in
  let raw := env_join E (RAW_FOLDER E) (filename file) in
  let base := fst (env_splitext E (filename file)) in
  exists summary_text now id,
    summarize_document (env_service E) (env_unicode_lower E) (env_console E)
                       (env_clock E) (env_splitext E) (env_fitz_open E)
                       (env_docx_Document E) (env_open_read E) raw (process s)
      = (Return summary_text, process s') /\
    events s'
      = InsertOne (stored_record base (lit "local://" ++ filename file)
                                  summary_text now (summary_path E base))
          :: UtcNow :: UtcNow
          :: WriteText (summary_path E base) summary_text
          :: Makedirs (SUMMARY_FOLDER E)
          :: StoreUpload raw (file_bytes file) :: events s /\
    response
      = ingestion_response (filename file) summary_text id
                           (env_basename E (summary_path E base)).
Proof.
  cbv zeta. rewrite upload_file_endpoint_run. cbv zeta.
  destruct (env_store E (events s) _ (file_bytes file)); [discriminate |].
  intro Hok. apply summarize_and_record_ok in Hok. exact Hok.
Qed.

(** X12. Every [HTTPException] of an upload has status 500 and one of
    three causes.  Storing the upload failed: nothing else was asked of the
    environment.  The summarization raised, be it in extraction or at a
    progress message or a sleep of the pipeline: the detail carries its
    error, the failure was printed, no summary was written and no record
    stored, and the raw file was looked for and, if there, removed; if it
    was extraction that failed, no generation call was made.  The store
    refused the record: the summary file had been written, the refusal was
    printed, and neither file is removed. *)
Theorem upload_file_endpoint_http_errors (file : UploadFile) (s : server)
    (code : Z) (detail : str) :
  fst (upload_file_endpoint E file s) = HTTPException code detail ->
  let s' := snd (upload_file_endpoint E file s) in
  let raw := env_join E (RAW_FOLDER E) (filename file) in
  let base := fst (env_splitext E (filename file)) in
  let stored := StoreUpload raw (file_bytes file) in
  let run := summarization E raw (asked stored s) in
  code = 500%Z /\
  ((exists e,
      detail = lit "Failed to save uploaded file: " ++ exn_str e /\
      s' = asked stored s) \/
   (exists e,
      fst run = Raise e /\
      detail = lit "Failed to generate summary: " ++ exn_str e /\
      process s' = printed (failure_message (filename file) e) (snd run) /\
      (events s' = PathExists raw :: stored :: events s \/
       events s' = Remove raw :: PathExists raw :: stored :: events s) /\
      (forall e',
         read_document (env_unicode_lower E) (env_splitext E)
                       (env_fitz_open E) (env_docx_Document E)
                       (env_open_read E) raw = Raise e' ->
         e = e' /\ snd run = process s)) \/
   (exists summary_text now e,
      fst run = Return summary_text /\
      detail = lit "Database connection error on save." /\
      process s' = printed (save_error_message e) (snd run) /\
      events s'
        = InsertOne (stored_record base (lit "local://" ++ filename file)
                                    summary_text now (summary_path E base))
            :: UtcNow :: UtcNow
            :: WriteText (summary_path E base) summary_text
            :: Makedirs (SUMMARY_FOLDER E) :: stored :: events s)).
Proof.
  cbv zeta. rewrite upload_file_endpoint_run. cbv zeta.
  destruct (env_store E (events s) _ (file_bytes file)) as [e |].
  - cbn [fst snd]. intro Hhttp.
    assert (Hcode : code = 500%Z) by congruence.
    assert (Hdetail : detail
                      = lit "Failed to save uploaded file: " ++ exn_str e)
      by congruence.
    split; [exact Hcode |]. left. exists e. split; [exact Hdetail | reflexivity].
  - intro Hhttp. apply summarize_and_record_http in Hhttp.
    destruct Hhttp as [Hcode [(e & Hrun & Hdetail & Hproc & Hev) | Hstore]].
    + split; [exact Hcode |]. right. left. exists e.
      repeat (split; [assumption |]).
      intros e' Hread.
      rewrite (summarization_extraction_raises _ _ _ Hread) in Hrun |- *.
      cbn [fst snd process asked] in *. split; congruence.
    + split; [exact Hcode |]. right. right. exact Hstore.
Qed.

(** X13. An answer of the fetcher that starts with "Error" ends the
    request with status 400 and that answer as the detail: the answer is
    never read as a path, and nothing but the fetch was asked of the
    environment.  Every other [HTTPException] of [ingest_url_endpoint] has
    status 500 and comes from a summarization that raised or from the store,
    as for an upload. *)
Theorem ingest_url_endpoint_http_errors (data : URLIngest) (s : server)
    (code : Z) (detail : str) :
  fst (ingest_url_endpoint E data s) = HTTPException code detail ->
  let s' := snd (ingest_url_endpoint E data s) in
  let fetched := FetchUrl (ingest_url data) in
  exists answer,
    env_fetch E (events s) (ingest_url data) = Return answer /\
    ((startswith (lit "Error") answer = true /\
      code = 400%Z /\ detail = answer /\ s' = asked fetched s) \/
     (startswith (lit "Error") answer = false /\
      code = 500%Z /\
      let run := summarization E answer (asked fetched s) in
      ((exists e,
          fst run = Raise e /\
          detail = lit "Failed to generate summary: " ++ exn_str e /\
          process s' = printed (failure_message (ingest_filename data) e)
                               (snd run) /\
          (events s' = PathExists answer :: fetched :: events s \/
           events s'
             = Remove answer :: PathExists answer :: fetched :: events s)) \/
       (exists summary_text now e,
          fst run = Return summary_text /\
          detail = lit "Database connection error on save." /\
          process s' = printed (save_error_message e) (snd run) /\
          events s'
            = InsertOne (stored_record (ingest_filename data)
                           (ingest_url data) summary_text now
                           (summary_path E (ingest_filename data)))
                :: UtcNow :: UtcNow
                :: WriteText (summary_path E (ingest_filename data))
                             summary_text
                :: Makedirs (SUMMARY_FOLDER E) :: fetched :: events s)))).
Proof.
  cbv zeta. rewrite ingest_url_endpoint_run.
  destruct (env_fetch E (events s) (ingest_url data)) as [answer | e];
    [| discriminate].
  intro Hhttp. exists answer. split; [reflexivity |].
  destruct (startswith (lit "Error") answer) eqn:Herr.
  - cbn [fst snd] in *.
    assert (Hcode : code = 400%Z) by congruence.
    assert (Hdetail : detail = answer) by congruence.
    left. repeat split; assumption.
  - apply summarize_and_record_http in Hhttp.
    right. split; [reflexivity |]. exact Hhttp.
Qed.

(** X14. A successful URL ingestion fetched the file and then did what an
    upload does after storing: the folder, the summary file, the clock twice,
    one record.  The record's title and the reported name are the file name
    of the request, its url is the url of the request, and the summary file
    is named after the request's file name, not after the fetched file. *)
Theorem ingest_url_endpoint_success (data : URLIngest) (s : server)
    (response : pydict) :
  fst (ingest_url_endpoint E data s) = Ok response ->
  let s' := snd (ingest_url_endpoint E data s) in
  let base := ingest_filename data in
  exists raw summary_text now id,
    env_fetch E (events s) (ingest_url data) = Return raw /\
    startswith (lit "Error") raw = false /\
    summarize_document (env_service E) (env_unicode_lower E) (env_console E)
                       (env_clock E) (env_splitext E) (env_fitz_open E)
                       (env_docx_Document E) (env_open_read E) raw (process s)
      = (Return summary_text, process s') /\
    events s'
      = InsertOne (stored_record base (ingest_url data) summary_text now
                                  (summary_path E base))
          :: UtcNow :: UtcNow
          :: WriteText (summary_path E base) summary_text
          :: Makedirs (SUMMARY_FOLDER E)
          :: FetchUrl (ingest_url data) :: events s /\
    response
      = ingestion_response base summary_text id
                           (env_basename E (summary_path E base)).
Proof.
  cbv zeta. rewrite ingest_url_endpoint_run.
  destruct (env_fetch E (events s) (ingest_url data)) as [raw | e];
    [| discriminate].
  destruct (startswith (lit "Error") raw) eqn:Herr; [discriminate |].
  intro Hok. apply summarize_and_record_ok in Hok.
  destruct Hok as (summary_text & now & id & Hrun & Hev & Hresp).
  exists raw, summary_text, now, id. repeat split; assumption.
Qed.

End Ingestion.

(** ** The web layer at concrete inputs *)

Lemma get_all_documents_sample :
  fst (get_all_documents good_env initial_server)
    = Ok [ [ (lit "title", VStr (lit "report"));
             (lit "_id", VStr (lit "65f0c0ffee")) ];
           [ (lit "title", VStr (lit "draft")) ] ].
Proof. vm_compute. reflexivity. Qed.

(** A store that is down on a standard output encoded in ASCII, for an
    error whose text is not ASCII: the caller of [save_document_to_db] gets
    the error of the print, not HTTP 500. *)
Lemma save_error_not_printed :
  fst (save_document_to_db
         (on_console ascii_console storeless_env)
         {| title := lit "report"; url := lit "local://report.txt";
            summary := lit "text"; uploadedBy := lit "a@kmrl.com";
            uploadedAt := lit "2030-01-01T00:00:00" |}
         (lit "data/summaries/report_summary.txt") initial_server)
    = Uncaught
        (UnicodeEncodeError
           (lit "'ascii' codec can't encode character '\xe9' in position 30: ordinal not in range(128)")).
Proof. vm_compute. reflexivity. Qed.

Lemma save_document_to_db_ignores_uploadedAt_witness :
  save_document_to_db good_env
    {| title := lit "report"; url := lit "local://report.txt";
       summary := lit "text"; uploadedBy := lit "a@kmrl.com";
       uploadedAt := lit "1999-12-31T23:59:59" |}
    (lit "data/summaries/report_summary.txt") initial_server
  = save_document_to_db good_env
    {| title := lit "report"; url := lit "local://report.txt";
       summary := lit "text"; uploadedBy := lit "a@kmrl.com";
       uploadedAt := lit "2030-01-01T00:00:00" |}
    (lit "data/summaries/report_summary.txt") initial_server.
Proof.
  apply save_document_to_db_ignores_uploadedAt; vm_compute; reflexivity.
Defined.

Lemma upload_file_endpoint_success_witness :
  exists summary_text now id,
    events (snd (upload_file_endpoint good_env sample_upload initial_server))
      = [ InsertOne (stored_record (lit "report") (lit "local://report.txt")
                       summary_text now
                       (lit "data/summaries/report_summary.txt"));
          UtcNow; UtcNow;
          WriteText (lit "data/summaries/report_summary.txt") summary_text;
          Makedirs (lit "data/summaries");
          StoreUpload (lit "data/raw/report.txt") [82; 69; 80]%N ] /\
    id = lit "65f0c0ffee".
Proof.
  destruct (upload_file_endpoint_success good_env sample_upload initial_server
              (ingestion_response (lit "report.txt")
                 (lit "## Introduction\n\n\n## INTRODUCTION\nSummary: ok\n\n## CONCLUSION\nSummary: ok\n")
                 (lit "65f0c0ffee") (lit "report_summary.txt")))
    as (summary_text & now & id & _ & Hev & Hresp);
    [vm_compute; reflexivity |].
  exists summary_text, now, id. split.
  - rewrite Hev. vm_compute. reflexivity.
  - vm_compute in Hresp. injection Hresp as _ <-. vm_compute. reflexivity.
Defined.

Lemma upload_file_endpoint_http_errors_witness :
  exists e,
    fst (summarization unreadable_env (lit "data/raw/report.txt")
           (asked (StoreUpload (lit "data/raw/report.txt") [82; 69; 80]%N)
                  initial_server))
      = Raise e /\
    process (snd (upload_file_endpoint unreadable_env sample_upload
                                       initial_server))
      = printed (failure_message (lit "report.txt") e) initial_world.
Proof.
  destruct (upload_file_endpoint_http_errors unreadable_env sample_upload
              initial_server 500
              (lit "Failed to generate summary: invalid start byte"))
    as (_ & [(e & _ & Hs)
            | [(e & Hrun & _ & Hproc & _) | (t & now & e & _ & _ & _ & Hev)]]);
    [vm_compute; reflexivity | | |].
  - apply (f_equal events) in Hs. vm_compute in Hs. discriminate Hs.
  - exists e. split.
    + rewrite <- Hrun. vm_compute. reflexivity.
    + rewrite Hproc. vm_compute. reflexivity.
  - vm_compute in Hev. discriminate Hev.
Defined.

Lemma ingest_url_endpoint_http_errors_witness :
  snd (ingest_url_endpoint unreachable_env sample_ingest initial_server)
    = asked (FetchUrl (lit "https://kmrl.example/report.txt")) initial_server.
Proof.
  destruct (ingest_url_endpoint_http_errors unreachable_env sample_ingest
              initial_server 400 (lit "Error: host not found"))
    as (answer & Hfetch & [(_ & _ & _ & Hs) | (Hnot & _)]);
    [vm_compute; reflexivity | |].
  - rewrite Hs. vm_compute. reflexivity.
  - vm_compute in Hfetch. injection Hfetch as <-.
    vm_compute in Hnot. discriminate Hnot.
Defined.

Lemma ingest_url_endpoint_success_witness :
  exists summary_text now,
    events (snd (ingest_url_endpoint good_env sample_ingest initial_server))
      = [ InsertOne (stored_record (lit "report")
                       (lit "https://kmrl.example/report.txt")
                       summary_text now
                       (lit "data/summaries/report_summary.txt"));
          UtcNow; UtcNow;
          WriteText (lit "data/summaries/report_summary.txt") summary_text;
          Makedirs (lit "data/summaries");
          FetchUrl (lit "https://kmrl.example/report.txt") ].
Proof.
  destruct (ingest_url_endpoint_success good_env sample_ingest initial_server
              (ingestion_response (lit "report")
                 (lit "## Introduction\n\n\n## INTRODUCTION\nSummary: ok\n\n## CONCLUSION\nSummary: ok\n")
                 (lit "65f0c0ffee") (lit "report_summary.txt")))
    as (raw & summary_text & now & id & _ & _ & _ & Hev & _);
    [vm_compute; reflexivity |].
  exists summary_text, now. rewrite Hev. vm_compute. reflexivity.
Defined.

(** ** Paths *)

Lemma rfind_from_absent (c : char) (s : str) :
  ~ In c s -> forall i best, rfind_from c s i best = best.
Proof.
  induction s as [| x s IH]; intros Hnot i best; cbn; [reflexivity |].
  rewrite IH by (intro H; apply Hnot; now right).
  destruct (N.eqb_spec x c); [| reflexivity].
  exfalso. apply Hnot. now left.
Qed.

Lemma rfind_from_app (c : char) (a b : str) :
  forall i best,
    rfind_from c (a ++ b) i best
      = rfind_from c b (i + Z.of_nat (List.length a)) (rfind_from c a i best).
Proof.
  induction a as [| x a IH]; intros i best; cbn [app rfind_from List.length].
  - now rewrite Z.add_0_r.
  - rewrite IH. f_equal. lia.
Qed.

(** Where the last occurrence is found does not depend on the index the
    scan starts from, up to the shift. *)
Lemma rfind_from_offset (c : char) (s : str) :
  In c s ->
  forall i best,
    (i <= rfind_from c s i best < i + Z.of_nat (List.length s))%Z /\
    forall j best',
      rfind_from c s j best' = (rfind_from c s i best - i + j)%Z.
Proof.
  induction s as [| x s IH]; intros Hin i best; [destruct Hin |].
  cbn [rfind_from List.length].
  destruct (in_dec N.eq_dec c s) as [Hs | Hs].
  - destruct (IH Hs (i + 1)%Z (if (x =? c)%N then i else best)) as [B R].
    split; [lia |]. intros j best'.
    rewrite (R (j + 1)%Z (if (x =? c)%N then j else best')). lia.
  - destruct Hin as [-> | Hin]; [| contradiction].
    rewrite N.eqb_refl. rewrite rfind_from_absent by exact Hs.
    split; [lia |]. intros j best'.
    rewrite rfind_from_absent by exact Hs. lia.
Qed.

Lemma rfind_from_present (c : char) (s : str) :
  In c s ->
  forall i best,
    rfind_from c s i best = (i + rfind c s)%Z /\
    (0 <= rfind c s < Z.of_nat (List.length s))%Z.
Proof.
  intros Hin i best. unfold rfind.
  destruct (rfind_from_offset c s Hin 0%Z (-1)%Z) as [B R].
  rewrite (R i best). lia.
Qed.

Lemma rfind_absent (c : char) (s : str) : ~ In c s -> rfind c s = (-1)%Z.
Proof. intro H. unfold rfind. now apply rfind_from_absent. Qed.

Lemma rfind_bound (c : char) (s : str) :
  (-1 <= rfind c s < Z.of_nat (List.length s))%Z.
Proof.
  destruct (in_dec N.eq_dec c s) as [Hs | Hs].
  - destruct (rfind_from_present c s Hs 0%Z (-1)%Z) as [_ B]. lia.
  - rewrite rfind_absent by exact Hs. lia.
Qed.

(** The last occurrence in [a ++ b]: the one in [b] if there is one, else
    the one in [a]. *)
Lemma rfind_app (c : char) (a b : str) :
  rfind c (a ++ b)
    = if in_dec N.eq_dec c b
      then (Z.of_nat (List.length a) + rfind c b)%Z
      else rfind c a.
Proof.
  unfold rfind at 1. rewrite rfind_from_app.
  destruct (in_dec N.eq_dec c b) as [Hb | Hb].
  - now destruct (rfind_from_present c b Hb (0 + Z.of_nat (List.length a))%Z
                    (rfind_from c a 0 (-1))) as [-> _].
  - now rewrite rfind_from_absent by exact Hb.
Qed.

Lemma rfind_snoc_same (c : char) (a : str) :
  rfind c (a ++ [c]) = Z.of_nat (List.length a).
Proof.
  rewrite rfind_app. destruct (in_dec N.eq_dec c [c]) as [_ | H].
  - unfold rfind. cbn. rewrite N.eqb_refl. lia.
  - exfalso. apply H. now left.
Qed.

Lemma endswith_char_snoc (c : char) (s : str) :
  endswith_char c s = true -> exists s', s = s' ++ [c].
Proof.
  unfold endswith_char. destruct (rev s) as [| x r] eqn:E; [discriminate |].
  intro H. apply N.eqb_eq in H. subst x. exists (rev r).
  rewrite <- (rev_involutive s), E. reflexivity.
Qed.

Lemma startswith_slash_absent (n : str) :
  ~ In SLASH n -> startswith [SLASH] n = false.
Proof.
  destruct n as [| c n]; [reflexivity |]. intro H.
  cbn [startswith]. destruct (N.eqb_spec SLASH c) as [Heq | Hne].
  - exfalso. apply H. now left.
  - reflexivity.
Qed.

(** Joining puts the second component behind a prefix that is empty or
    ends with a slash, unless the second component is absolute. *)
Lemma posix_join_prefix (d n : str) :
  startswith [SLASH] n = false ->
  exists a, posix_join d n = a ++ n /\ (a = [] \/ exists a', a = a' ++ [SLASH]).
Proof.
  intro Hrel. unfold posix_join. rewrite Hrel.
  destruct d as [| c d]; cbn [truthy negb orb].
  - exists []. split; [reflexivity | now left].
  - destruct (endswith_char SLASH (c :: d)) eqn:Hend.
    + exists (c :: d). split; [reflexivity |]. right.
      now apply endswith_char_snoc.
    + exists ((c :: d) ++ [SLASH]). split; [now rewrite <- app_assoc |].
      right. now exists (c :: d).
Qed.

Lemma skipn_length_app {A} (a b : list A) (k : nat) :
  skipn (List.length a + k) (a ++ b) = skipn k b.
Proof. induction a as [| x a IH]; cbn; [reflexivity | exact IH]. Qed.

Lemma firstn_length_app {A} (a b : list A) (k : nat) :
  firstn (List.length a + k) (a ++ b) = a ++ firstn k b.
Proof. induction a as [| x a IH]; cbn; [reflexivity | now rewrite IH]. Qed.

(** The base name of a joined path is the second component, if that has
    no slash. *)
Lemma posix_basename_join (d n : str) :
  ~ In SLASH n -> posix_basename (posix_join d n) = n.
Proof.
  intro Hn.
  destruct (posix_join_prefix d n (startswith_slash_absent n Hn))
    as (a & -> & [-> | (a' & ->)]); unfold posix_basename, slice_from.
  - cbn [app]. now rewrite rfind_absent by exact Hn.
  - rewrite rfind_app. destruct (in_dec N.eq_dec SLASH n); [contradiction |].
    rewrite rfind_snoc_same.
    replace (Z.to_nat (Z.of_nat (List.length a') + 1))
      with (List.length (a' ++ [SLASH]) + 0)
      by (rewrite length_app; cbn; lia).
    apply skipn_length_app.
Qed.

(** The extension of a path does not depend on what a path is joined in
    front of it. *)
Lemma posix_splitext_join (d n : str) :
  snd (posix_splitext (posix_join d n)) = snd (posix_splitext n).
Proof.
  destruct (startswith [SLASH] n) eqn:Habs.
  { unfold posix_join. now rewrite Habs. }
  destruct (posix_join_prefix d n Habs) as (a & -> & [-> | (a' & ->)]);
    [reflexivity |].
  set (A := a' ++ [SLASH]).
  assert (HL : List.length A = S (List.length a'))
    by (unfold A; rewrite length_app; cbn; lia).
  assert (Hsep : rfind SLASH (A ++ n)
                 = (Z.of_nat (List.length A) + rfind SLASH n)%Z).
  { rewrite rfind_app. destruct (in_dec N.eq_dec SLASH n) as [Hs | Hs].
    - reflexivity.
    - unfold A. rewrite rfind_snoc_same, rfind_absent by exact Hs.
      rewrite length_app. cbn. lia. }
  unfold posix_splitext. rewrite Hsep.
  pose proof (rfind_bound SLASH n) as Bsep.
  destruct (in_dec N.eq_dec DOT n) as [Hd | Hd].
  - assert (Hdot : rfind DOT (A ++ n)
                   = (Z.of_nat (List.length A) + rfind DOT n)%Z).
    { rewrite rfind_app. now destruct (in_dec N.eq_dec DOT n). }
    rewrite Hdot.
    destruct (rfind_from_present DOT n Hd 0%Z (-1)%Z) as [_ Bdot].
    replace (Z.of_nat (List.length A) + rfind SLASH n
             <? Z.of_nat (List.length A) + rfind DOT n)%Z
      with (rfind SLASH n <? rfind DOT n)%Z
      by (destruct (Z.ltb_spec (rfind SLASH n) (rfind DOT n));
          destruct (Z.ltb_spec (Z.of_nat (List.length A) + rfind SLASH n)
                               (Z.of_nat (List.length A) + rfind DOT n));
          lia).
    destruct (rfind SLASH n <? rfind DOT n)%Z; [| reflexivity].
    assert (Hslice :
      slice (Z.of_nat (List.length A) + rfind SLASH n + 1)
            (Z.of_nat (List.length A) + rfind DOT n) (A ++ n)
      = slice (rfind SLASH n + 1) (rfind DOT n) n).
    { unfold slice, slice_from, slice_to.
      replace (Z.to_nat (Z.of_nat (List.length A) + rfind DOT n))
        with (List.length A + Z.to_nat (rfind DOT n)) by lia.
      rewrite firstn_length_app.
      replace (Z.to_nat (Z.of_nat (List.length A) + rfind SLASH n + 1))
        with (List.length A + Z.to_nat (rfind SLASH n + 1)) by lia.
      apply skipn_length_app. }
    rewrite Hslice.
    destruct (existsb _ _); [| reflexivity].
    cbn [snd]. unfold slice_from.
    replace (Z.to_nat (Z.of_nat (List.length A) + rfind DOT n))
      with (List.length A + Z.to_nat (rfind DOT n)) by lia.
    apply skipn_length_app.
  - rewrite (rfind_absent DOT n Hd).
    assert (Hdot : (rfind DOT (A ++ n) < Z.of_nat (List.length a'))%Z).
    { rewrite rfind_app. destruct (in_dec N.eq_dec DOT n); [contradiction |].
      unfold A. rewrite rfind_app.
      destruct (in_dec N.eq_dec DOT [SLASH]) as [[H | []] | _];
        [discriminate H |].
      pose proof (rfind_bound DOT a'). lia. }
    destruct (Z.ltb_spec (Z.of_nat (List.length A) + rfind SLASH n)
                         (rfind DOT (A ++ n))); [lia |].
    destruct (Z.ltb_spec (rfind SLASH n) (-1)); [lia | reflexivity].
Qed.

(** ** Paths through the web layer *)

Section PosixServer.

Variable E : environment.
Hypothesis Hsplitext : env_splitext E = posix_splitext.
Hypothesis Hjoin : env_join E = posix_join.
Hypothesis Hbasename : env_basename E = posix_basename.

Lemma summary_name_no_slash (base : str) :
  ~ In SLASH base -> ~ In SLASH (base ++ lit "_summary.txt").
Proof.
  intros Hbase Hin. apply in_app_or in Hin. destruct Hin as [Hin | Hin];
    [contradiction |].
  vm_compute in Hin. repeat (destruct Hin as [Hin | Hin]; [discriminate Hin |]).
  exact Hin.
Qed.

(** X15. On POSIX paths and for a base name without a slash, the download
    name an ingestion endpoint reports is the base name followed by
    "_summary.txt", and [download_summary] called with it looks for exactly
    the file [save_summary] wrote: it answers with that file if the path
    exists and with 404 "Summary file not found" otherwise, and never
    raises. *)
Theorem download_summary_finds_saved_file (base : str) (s : server) :
  ~ In SLASH base ->
  let name := env_basename E (summary_path E base) in
  name = base ++ lit "_summary.txt" /\
  download_summary E name s =
    (Return
       (if env_exists E (events s) (summary_path E base)
        then FileResponse (summary_path E base) name (lit "text/plain")
        else JSONResponse 404
               [(lit "error", VStr (lit "Summary file not found"))]),
     asked (PathExists (summary_path E base)) s).
Proof.
  intro Hbase. cbv zeta.
  pose proof (summary_name_no_slash base Hbase) as Hname.
  assert (Hbn : env_basename E (summary_path E base)
                = base ++ lit "_summary.txt").
  { unfold summary_path. rewrite Hjoin, Hbasename.
    now apply posix_basename_join. }
  split; [exact Hbn |].
  rewrite Hbn. unfold download_summary, pbind, os_path_exists, query, pret.
  fold (summary_path E base).
  destruct (env_exists E (events s) (summary_path E base)); reflexivity.
Qed.

(** The extension that decides the reader of an uploaded file is the
    extension of the file's own name: the raw folder plays no part. *)
Lemma raw_path_extension (name : str) :
  snd (env_splitext E (env_join E (RAW_FOLDER E) name))
    = snd (posix_splitext name).
Proof. rewrite Hsplitext, Hjoin. apply posix_splitext_join. Qed.

(** X16. On POSIX paths, an upload whose file name has no supported
    extension (compared in lower case, whatever the raw folder is called)
    is first stored and then refused: extraction raises "Unsupported file
    type" with the lowered extension, no generation call is made, the
    failure is printed, the raw file is looked for and removed if there, and
    the caller gets HTTP 500 with that message, or the error of the
    removal; if the failure cannot be printed, the error of the print
    reaches the caller and the raw file stays. *)
Theorem upload_of_unsupported_type (file : UploadFile) (s : server) :
  let raw := env_join E (RAW_FOLDER E) (filename file) in
  let ext :=
    lower (env_unicode_lower E) (snd (posix_splitext (filename file))) in
  let unsupported := ValueError (lit "Unsupported file type: " ++ ext) in
  let stored := StoreUpload raw (file_bytes file) in
  let run := upload_file_endpoint E file s in
  supported ext = false ->
  env_store E (events s) raw (file_bytes file) = None ->
  call_log (process (snd run)) = call_log (process s) /\
  match env_console E (print_log (process s))
                    (failure_message (filename file) unsupported) with
  | Some e => run = (Uncaught e, asked stored s)
  | None =>
      process (snd run)
        = printed (failure_message (filename file) unsupported) (process s) /\
      (fst run
         = HTTPException 500
             (lit "Failed to generate summary: "
              ++ lit "Unsupported file type: " ++ ext)
       \/ exists e, fst run = Uncaught e) /\
      (events (snd run) = PathExists raw :: stored :: events s \/
       events (snd run) = Remove raw :: PathExists raw :: stored :: events s)
  end.
Proof.
  cbv zeta. intros Hunsupported Hstore.
  rewrite upload_file_endpoint_run. cbv zeta. rewrite Hstore.
  assert (Hread :
    read_document (env_unicode_lower E) (env_splitext E) (env_fitz_open E)
                  (env_docx_Document E) (env_open_read E)
                  (env_join E (RAW_FOLDER E) (filename file))
    = Raise (ValueError
               (lit "Unsupported file type: "
                ++ lower (env_unicode_lower E)
                         (snd (posix_splitext (filename file)))))).
  { unfold read_document. rewrite raw_path_extension.
    unfold supported in Hunsupported.
    destruct (str_eqb _ (lit ".pdf")); [discriminate |].
    destruct (str_eqb _ (lit ".docx")); [discriminate |].
    destruct (str_eqb _ (lit ".doc")); [discriminate |].
    destruct (str_eqb _ (lit ".txt")); [discriminate |].
    reflexivity. }
  rewrite (summarize_and_record_failed _ _ _ _ _ _ _ _
             (summarization_extraction_raises _ _ _ _ Hread)).
  cbn [events asked process].
  destruct (env_console E _ _) as [e |].
  - split; [reflexivity |]. destruct s; reflexivity.
  - cbv zeta. cbn [events asked process].
    destruct (env_exists E _ _).
    + destruct (env_remove E _ _) as [e |]; cbn [fst snd process asked events].
      * split; [reflexivity |]. split; [reflexivity |].
        split; [right; now exists e | now right].
      * split; [reflexivity |]. split; [reflexivity |].
        split; [left; reflexivity | now right].
    + cbn [fst snd process asked events].
      split; [reflexivity |]. split; [reflexivity |].
      split; [left; reflexivity | now left].
Qed.

End PosixServer.

Lemma download_summary_finds_saved_file_witness :
  env_basename good_env (summary_path good_env (lit "report"))
    = lit "report_summary.txt" /\
  fst (download_summary good_env (lit "report_summary.txt") initial_server)
    = Return (FileResponse (lit "data/summaries/report_summary.txt")
                           (lit "report_summary.txt") (lit "text/plain")).
Proof.
  destruct (download_summary_finds_saved_file good_env eq_refl eq_refl
              (lit "report") initial_server) as [Hname Hrun].
  - vm_compute. intros H.
    repeat (destruct H as [H | H]; [discriminate H |]). exact H.
  - split.
    + rewrite Hname. vm_compute. reflexivity.
    + vm_compute. reflexivity.
Defined.

(** With a slash in the base name the reported download name is only the
    last component, and [download_summary] looks somewhere else than where
    the summary was written. *)
Lemma download_name_of_nested_base :
  summary_path good_env (lit "2024/report")
    = lit "data/summaries/2024/report_summary.txt" /\
  posix_join (lit "data/summaries")
             (posix_basename (summary_path good_env (lit "2024/report")))
    = lit "data/summaries/report_summary.txt".
Proof. split; vm_compute; reflexivity. Qed.

Lemma upload_of_unsupported_type_witness :
  fst (upload_file_endpoint
         (sample_env stub_empty (Return two_sections) (Return VNone)
                     (Return []))
         markdown_upload initial_server)
    = HTTPException 500
        (lit "Failed to generate summary: Unsupported file type: .md").
Proof.
  pose proof (upload_of_unsupported_type
                (sample_env stub_empty (Return two_sections) (Return VNone)
                            (Return []))
                eq_refl eq_refl markdown_upload initial_server) as H.
  cbv zeta in H.
  assert (Hext : supported
                   (lower (env_unicode_lower
                             (sample_env stub_empty (Return two_sections)
                                         (Return VNone) (Return [])))
                          (snd (posix_splitext (filename markdown_upload))))
                 = false) by (vm_compute; reflexivity).
  assert (Hstore : env_store
                     (sample_env stub_empty (Return two_sections)
                                 (Return VNone) (Return []))
                     (events initial_server)
                     (env_join
                        (sample_env stub_empty (Return two_sections)
                                    (Return VNone) (Return []))
                        (RAW_FOLDER
                           (sample_env stub_empty (Return two_sections)
                                       (Return VNone) (Return [])))
                        (filename markdown_upload))
                     (file_bytes markdown_upload)
                   = None) by (vm_compute; reflexivity).
  destruct (H Hext Hstore) as [_ Hrun]. clear H.
  vm_compute in Hrun. vm_compute. destruct Hrun as (_ & [Hhttp | (e & He)] & _).
  - exact Hhttp.
  - discriminate He.
Defined.

(** ** Blank documents *)

Lemma isspace_not_upper (c : char) : isspace c = true -> is_upper c = false.
Proof.
  unfold isspace, is_upper. intro H.
  destruct (N.leb_spec 65 c); [| reflexivity].
  destruct (N.leb_spec c 90); [| reflexivity].
  exfalso.
  repeat (apply orb_prop in H; destruct H as [H | H]);
    repeat (apply andb_prop in H; destruct H as [H H']);
    repeat match goal with
           | Hx : (_ <=? _)%N = true |- _ => apply N.leb_le in Hx
           | Hx : (_ =? _)%N = true |- _ => apply N.eqb_eq in Hx
           end; lia.
Qed.

Lemma blank_forallb (s : str) : forallb isspace s = true -> blank s.
Proof. intro H. apply Forall_forall. now apply forallb_forall. Qed.

Lemma lstrip_blank (s : str) : blank s -> lstrip s = [].
Proof.
  induction 1 as [| c s Hc _ IH]; cbn; [reflexivity |]. now rewrite Hc.
Qed.

Lemma strip_blank (s : str) : blank s -> strip s = [].
Proof. intro H. unfold strip. now rewrite lstrip_blank. Qed.

(** The pattern finds nothing in a blank text. *)
Lemma split_from_blank (fuel : nat) :
  forall bol s cur, blank s -> split_from fuel bol s cur = [rev cur ++ s].
Proof.
  induction fuel as [| fuel IH]; intros bol s cur Hs; cbn [split_from];
    [reflexivity |].
  destruct Hs as [| c s Hc Hs]; [now rewrite app_nil_r |].
  assert (Hnone : (if bol then match_here (c :: s) else None) = None).
  { destruct bol; [| reflexivity]. cbn [match_here].
    now rewrite (isspace_not_upper c Hc). }
  rewrite Hnone, IH by exact Hs. cbn [rev]. now rewrite <- app_assoc.
Qed.

Lemma split_into_sections_blank (text : str) :
  blank text -> split_into_sections text = [(lit "Introduction", [])].
Proof.
  intro Hblank. unfold split_into_sections, pattern_split.
  rewrite split_from_blank by exact Hblank. cbn [rev app fold_left].
  assert (Hm : pattern_match (strip text) = false)
    by now rewrite strip_blank.
  rewrite split_step_text by exact Hm. cbn [app].
  rewrite flush_line. now rewrite strip_blank.
Qed.

(** X20. A text of whitespace only, the empty text included, is one
    section: "Introduction" with an empty body. *)
Theorem blank_text_is_one_empty_section (text : str) :
  blank text -> split_into_sections text = [(lit "Introduction", [])].
Proof. exact (split_into_sections_blank text). Qed.

Lemma blank_text_is_one_empty_section_witness :
  split_into_sections (lit " \n\n  \n") = [(lit "Introduction", [])].
Proof.
  apply blank_text_is_one_empty_section, blank_forallb.
  vm_compute. reflexivity.
Defined.

(** ** The readers *)

Section Readers.

Variable fitz_open : str -> result (list str).
Variable docx_Document : str -> result (list str).

Lemma fold_pages (pages : list str) :
  forall text,
    fold_left (fun text page => text ++ page ++ [NL]) pages text
      = text ++ List.concat (map (fun page => page ++ [NL]) pages).
Proof.
  induction pages as [| page pages IH]; intro text; cbn.
  - now rewrite app_nil_r.
  - rewrite IH. now rewrite <- !app_assoc.
Qed.

Lemma blank_app (a b : str) : blank a -> blank b -> blank (a ++ b).
Proof. intros Ha Hb. apply Forall_app. now split. Qed.

Lemma join_nonempty (sep : str) (parts : list str) :
  parts <> [] -> Forall (fun p => p <> []) parts -> join sep parts <> [].
Proof.
  destruct parts as [| p rest]; [congruence |].
  intros _ Hall. inversion Hall as [| ? ? Hp _]; subst.
  cbn [join]. destruct rest; [exact Hp |].
  destruct p; [congruence | discriminate].
Qed.

(** X19. What the readers make of documents without text.  A PDF gives
    one newline per page behind the page's text, so it reads as the empty
    text only if it has no page, and as a blank text if no page has text.
    A Word document reads as the empty text exactly if every paragraph is
    blank, and otherwise as a text that has no blank paragraph in it. *)
Theorem readers_on_blank_documents (path : str) :
  (forall pages,
     fitz_open path = Return pages ->
     exists text,
       read_pdf fitz_open path = Return text /\
       (List.length pages <= List.length text)%nat /\
       (Forall blank pages -> blank text)) /\
  (forall paragraphs,
     docx_Document path = Return paragraphs ->
     exists text,
       read_docx docx_Document path = Return text /\
       (text = [] <-> Forall (fun p => strip p = []) paragraphs)).
Proof.
  split.
  - intros pages Hopen. unfold read_pdf. rewrite Hopen.
    eexists. split; [reflexivity |]. rewrite fold_pages. cbn [app].
    split.
    + clear Hopen. induction pages as [| page pages IH];
        cbn [map List.concat List.length]; [lia |].
      rewrite !length_app. cbn [List.length]. lia.
    + intro Hblank. clear Hopen.
      induction Hblank as [| page pages Hp _ IH]; cbn [map List.concat].
      * constructor.
      * apply blank_app; [| exact IH].
        apply blank_app; [exact Hp |]. constructor; [reflexivity | constructor].
  - intros paragraphs Hopen. unfold read_docx. rewrite Hopen.
    eexists. split; [reflexivity |].
    set (kept := filter (fun p => truthy (strip p)) paragraphs).
    assert (Hkept : Forall (fun p => p <> []) kept).
    { apply Forall_forall. intros p Hp. apply filter_In in Hp.
      destruct Hp as [_ Hp]. intros ->. discriminate Hp. }
    assert (Hiff : kept = [] <-> Forall (fun p => strip p = []) paragraphs).
    { unfold kept. clear. induction paragraphs as [| p ps IH]; cbn.
      - split; [constructor | reflexivity].
      - destruct (strip p) eqn:Hs; cbn.
        + rewrite IH. split; intro H; [now constructor | now inversion H].
        + split; [discriminate |]. intro H. inversion H. congruence. }
    rewrite <- Hiff. split.
    + intro Hjoin. destruct kept as [| p rest] eqn:Ek; [reflexivity |].
      exfalso. apply (join_nonempty [NL] (p :: rest)); [discriminate | |];
        assumption.
    + intros ->. reflexivity.
Qed.

End Readers.

(** ** What a run of the pipeline costs *)

Lemma spends_refl (n : nat) (delay : Z) (w : world) : spends n delay w w.
Proof. exists [], 0. cbn. repeat split; lia. Qed.

Lemma spends_trans (n1 n2 : nat) (delay : Z) (w1 w2 w3 : world) :
  spends n1 delay w1 w2 -> spends n2 delay w2 w3 ->
  spends (n1 + n2) delay w1 w3.
Proof.
  intros (new1 & k1 & Hc1 & Hn1 & Hs1 & Hk1) (new2 & k2 & Hc2 & Hn2 & Hs2 & Hk2).
  exists (new2 ++ new1), (k2 + k1). repeat split.
  - rewrite Hc2, Hc1. apply app_assoc.
  - rewrite length_app. lia.
  - rewrite Hs2, Hs1, repeat_app. apply app_assoc.
  - rewrite length_app. lia.
Qed.

Lemma spends_weaken (n m : nat) (delay : Z) (w w' : world) :
  n <= m -> spends n delay w w' -> spends m delay w w'.
Proof.
  intros Hnm (new & k & Hc & Hn & Hs & Hk).
  exists new, k. repeat split; [assumption | lia | assumption | assumption].
Qed.

(** What touches only the standard output costs nothing. *)
Lemma only_prints_spends (delay : Z) (w w' : world) :
  only_prints w w' -> spends 0 delay w w'.
Proof.
  intros (_ & _ & Hc & Hs). exists [], 0. cbn. repeat split; auto.
Qed.

Lemma only_prints_refl (w : world) : only_prints w w.
Proof. repeat split. Qed.

Lemma only_prints_trans (w1 w2 w3 : world) :
  only_prints w1 w2 -> only_prints w2 w3 -> only_prints w1 w3.
Proof.
  intros (A1 & B1 & C1 & D1) (A2 & B2 & C2 & D2).
  repeat split; congruence.
Qed.

Lemma print_only_prints console (text : str) (w : world) :
  only_prints w (snd (print console text w)).
Proof.
  unfold print. destruct (console _ _); repeat split.
Qed.

Section Cost.

Variable service : nat -> nat -> str -> outcome.
Variable unicode_lower : str -> str.
Variable console : list str -> str -> option exn.
Variable clock : list Z -> Z -> option exn.

(** One round makes one call, with the credential of the model object,
    and does not sleep, however it ends. *)
Lemma attempt_logs (p : str) (attempt_no : nat) (retries : Z) (w : world) :
  call_log (snd (attempt service unicode_lower console p attempt_no retries w))
    = (gemini_model w, p) :: call_log w /\
  sleep_log (snd (attempt service unicode_lower console p attempt_no retries
                          w))
    = sleep_log w.
Proof.
  unfold attempt, try_except, bind, generate_content, print.
  destruct (service _ _ _) as [r | e]; world_simpl.
  - destruct (truthy (response_text r)); [split; reflexivity |].
    world_simpl. destruct (console _ _) as [e |]; [| split; reflexivity].
    world_simpl. destruct (contains _ _).
    + unfold switch_to_next_key, bind, print. world_simpl.
      destruct (_ <? _); world_simpl;
        repeat (destruct (console _ _); world_simpl); split; reflexivity.
    + unfold ret. world_simpl.
      destruct (console _ _); split; reflexivity.
  - destruct (contains _ _).
    + unfold switch_to_next_key, bind, print. world_simpl.
      destruct (_ <? _); world_simpl;
        repeat (destruct (console _ _); world_simpl); split; reflexivity.
    + unfold ret. world_simpl.
      destruct (console _ _); split; reflexivity.
Qed.

Lemma attempt_spends (p : str) (attempt_no : nat) (retries delay : Z)
    (w : world) :
  spends 1 delay w
         (snd (attempt service unicode_lower console p attempt_no retries w)).
Proof.
  destruct (attempt_logs p attempt_no retries w) as [Hcall Hsleep].
  exists [(gemini_model w, p)], 0.
  repeat split; [assumption | cbn; lia | assumption | cbn; lia].
Qed.

Lemma attempts_spends (p : str) (retries delay : Z) (rounds : list nat) :
  forall w,
    spends (List.length rounds) delay w
           (snd (attempts service unicode_lower console clock p retries rounds
                          delay w)).
Proof.
  induction rounds as [| attempt_no rounds IH]; intro w; [apply spends_refl |].
  cbn [attempts List.length]. unfold bind at 1.
  destruct (attempt_logs p attempt_no retries w) as [Hcall Hsleep].
  pose proof (attempt_spends p attempt_no retries delay w) as Hone.
  destruct (attempt service unicode_lower console p attempt_no retries w)
    as [[f | e] w1]; cbn [snd] in *.
  2:{ eapply spends_weaken; [| exact Hone]. lia. }
  destruct f as [summary | |].
  - cbn [snd ret]. eapply spends_weaken; [| exact Hone]. lia.
  - apply (spends_trans 1 (List.length rounds) _ _ _ _ Hone (IH w1)).
  - unfold bind.
    destruct (time_sleep_cases clock delay w1) as [-> | [e ->]]; cbn [snd].
    2:{ eapply spends_weaken; [| exact Hone]. lia. }
    { specialize (IH (slept delay w1)).
      destruct IH as (new & k & H1 & H2 & H3 & H4).
      world_simpl.
      exists (new ++ [(gemini_model w, p)]), (k + 1). repeat split.
      * rewrite H1, Hcall, <- app_assoc. reflexivity.
      * rewrite length_app. cbn. lia.
      * rewrite H3, Hsleep, repeat_app, <- app_assoc. reflexivity.
      * rewrite length_app. cbn. lia. }
Qed.

Lemma summarize_section_spends (section_text : str) (retries delay : Z)
    (w : world) :
  spends (Z.to_nat retries) delay w
         (snd (summarize_section service unicode_lower console clock
                                 section_text retries delay w)).
Proof.
  unfold summarize_section. destruct (_ <? _); [apply spends_refl |].
  pose proof (attempts_spends (prompt section_text) retries delay
                (seq 0 (Z.to_nat retries)) w) as H.
  rewrite length_seq in H. exact H.
Qed.

Lemma summarize_each_spends (sections : list section) :
  forall w,
    spends (3 * List.length sections) 5 w
           (snd (summarize_each service unicode_lower console clock sections
                                w)).
Proof.
  induction sections as [| [heading content] rest IH]; intro w;
    [apply spends_refl |].
  cbn [summarize_each List.length]. rewrite Nat.mul_succ_r, Nat.add_comm.
  unfold bind at 1.
  pose proof (only_prints_spends 5 _ _
                (print_only_prints console (section_message heading) w))
    as Hprint.
  destruct (print console (section_message heading) w) as [[[] | e] w0];
    cbn [snd] in *.
  2:{ eapply spends_weaken; [| exact Hprint]. lia. }
  unfold bind at 1.
  pose proof (summarize_section_spends content 3 5 w0) as Hsec.
  change (Z.to_nat 3) with 3 in Hsec.
  assert (Hsec' : spends 3 5 w
            (snd (summarize_section service unicode_lower console clock
                                    content 3 5 w0))).
  { apply (spends_trans 0 3 _ _ _ _ Hprint Hsec). }
  destruct (summarize_section service unicode_lower console clock content 3 5
                              w0) as [[summary | e] w1]; cbn [snd] in *.
  - unfold bind. specialize (IH w1).
    destruct (summarize_each service unicode_lower console clock rest w1)
      as [[blocks | e] w2]; cbn [snd ret] in *;
      exact (spends_trans _ _ _ _ _ _ Hsec' IH).
  - eapply spends_weaken; [| exact Hsec']. lia.
Qed.

(** The merge request is one call with the credential of the model
    object; it does not sleep or move the cursor; what it returns is the
    trimmed text of a usable answer or nothing; it raises only if the
    report of a failed request cannot be written. *)
Lemma merge_call_run (p : str) (w : world) :
  let run := merge_call service console p w in
  call_log (snd run) = (gemini_model w, p) :: call_log w /\
  sleep_log (snd run) = sleep_log w /\
  current_key_index (snd run) = current_key_index w /\
  gemini_model (snd run) = gemini_model w /\
  (forall final,
     fst run = Return final ->
     final = None \/
     exists r,
       service (calls w) (gemini_model w) p = Responds r /\
       truthy (response_text r) = true /\
       final = Some (response_text r)) /\
  (accepts console -> exists final, fst run = Return final).
Proof.
  cbv zeta.
  unfold merge_call, try_except, bind, generate_content, calls, print, ret.
  destruct (service _ _ _) as [r | e] eqn:Hcall; world_simpl.
  - destruct (truthy (response_text r)) eqn:Ht; world_simpl;
      repeat (split; [reflexivity |]); split.
    + intros final H. right. exists r.
      split; [assumption || reflexivity |].
      split; [assumption || reflexivity | congruence].
    + intros _. eexists. reflexivity.
    + intros final H. left. congruence.
    + intros _. eexists. reflexivity.
  - destruct (console _ _) eqn:Hprint; world_simpl;
      repeat (split; [reflexivity |]); split.
    + intros final H. discriminate H.
    + intro Hc. rewrite Hc in Hprint. discriminate Hprint.
    + intros final H. left. congruence.
    + intros _. eexists. reflexivity.
Qed.

(** X17. Every run of [summarize_text_by_sections] over a text of [n]
    sections, whether it returns or raises, makes at most [3 * n + 1]
    generation calls and sleeps 5 seconds at most once per call.  A run
    that returns made at most [3 * n] section calls and then exactly one
    merge request, which is its last call; what it returns is the trimmed
    text of the answer to the merge request if that is not empty, and the
    text sent with the merge request otherwise. *)
Theorem summarize_text_by_sections_budget (text : str) (w : world) :
  let n := List.length (split_into_sections text) in
  let run :=
    summarize_text_by_sections service unicode_lower console clock text w in
  spends (3 * n + 1) 5 w (snd run) /\
  (forall summary,
     fst run = Return summary ->
     exists merged section_calls k,
       call_log (snd run)
         = (gemini_model (snd run), final_prompt merged)
             :: section_calls ++ call_log w /\
       List.length section_calls <= 3 * n /\
       sleep_log (snd run) = repeat 5%Z k ++ sleep_log w /\
       k <= List.length section_calls /\
       (summary = merged \/
        exists r,
          service (List.length section_calls + calls w)
                  (gemini_model (snd run)) (final_prompt merged)
            = Responds r /\
          truthy (response_text r) = true /\
          summary = response_text r)).
Proof.
  cbv zeta.
  pose proof (summarize_each_spends (split_into_sections text) w) as Hcost.
  unfold summarize_text_by_sections, bind.
  destruct (summarize_each service unicode_lower console clock
                           (split_into_sections text) w)
    as [[blocks | e] w1]; cbn [snd] in Hcost.
  2:{ cbn [fst snd]. split; [| intros summary H; discriminate H].
      eapply spends_weaken; [| exact Hcost]. lia. }
  destruct (merge_call_run (final_prompt (join [NL] blocks)) w1)
    as (Hcall & Hsleep & Hcursor & Hmodel & Hfinal & _).
  destruct (merge_call service console (final_prompt (join [NL] blocks)) w1)
    as [[final | e] w2]; cbn [fst snd] in *.
  - assert (Hend : forall s : str, snd (ret s w2) = w2) by reflexivity.
    assert (Hone : spends 1 5 w1 w2).
    { exists [(gemini_model w1, final_prompt (join [NL] blocks))], 0.
      repeat split; [assumption | cbn; lia | assumption | cbn; lia]. }
    assert (Hres : forall s : str, fst (ret s w2) = Return s) by reflexivity.
    split.
    + destruct final; rewrite Hend;
        exact (spends_trans _ _ _ _ _ _ Hcost Hone).
    + intros summary Hsummary.
      destruct Hcost as (new & k & Hcalls & Hn & Hsleeps & Hk).
      exists (join [NL] blocks), new, k.
      assert (Hw : snd (match final with
                        | Some final_summary => ret final_summary
                        | None => ret (join [NL] blocks)
                        end w2) = w2) by (destruct final; reflexivity).
      rewrite Hw. rewrite Hmodel, Hcall, Hsleep, Hcalls.
      split; [reflexivity |]. split; [exact Hn |].
      split; [exact Hsleeps |]. split; [exact Hk |].
      destruct (Hfinal final eq_refl) as [-> | (r & Hr & Ht & ->)].
      * left. rewrite Hres in Hsummary. congruence.
      * right. exists r. rewrite Hres in Hsummary.
        split; [| split; [exact Ht | congruence]].
        unfold calls in *. rewrite Hcalls, length_app in Hr. exact Hr.
  - split; [| intros summary H; discriminate H].
    assert (Hone : spends 1 5 w1 w2).
    { exists [(gemini_model w1, final_prompt (join [NL] blocks))], 0.
      repeat split; [assumption | cbn; lia | assumption | cbn; lia]. }
    exact (spends_trans _ _ _ _ _ _ Hcost Hone).
Qed.

(** Sections that are all short cost nothing but their announcements:
    the loop touches only the standard output, and what it returns are
    their blocks with empty summaries. *)
Lemma summarize_each_short (sections : list section) :
  Forall short_section sections ->
  forall w,
    let run :=
      summarize_each service unicode_lower console clock sections w in
    only_prints w (snd run) /\
    (forall blocks,
       fst run = Return blocks -> blocks = map empty_block sections) /\
    (accepts console -> exists blocks, fst run = Return blocks).
Proof.
  induction 1 as [| [heading content] rest Hshort _ IH]; intro w; cbv zeta.
  - cbn [summarize_each map]. unfold ret. cbn [fst snd].
    split; [apply only_prints_refl |]. split.
    + intros blocks H. congruence.
    + intros _. eexists. reflexivity.
  - cbn [summarize_each map]. unfold bind.
    pose proof (print_only_prints console (section_message heading) w)
      as Hprint.
    unfold print in *.
    destruct (console (print_log w) (section_message heading)) eqn:Hc;
      cbn [snd] in Hprint.
    + cbn [fst snd]. split; [exact Hprint |]. split.
      * intros blocks H. discriminate H.
      * intro Hacc. rewrite Hacc in Hc. discriminate Hc.
    + unfold summarize_section.
      unfold short_section in Hshort. cbn [snd] in Hshort.
      destruct (Nat.ltb_spec (List.length (str_split (strip content))) 10);
        [| lia].
      unfold ret.
      specialize (IH (printed (section_message heading) w)). cbv zeta in IH.
      destruct IH as (Hquiet & Hblocks & Hreturns).
      destruct (summarize_each service unicode_lower console clock rest
                               (printed (section_message heading) w))
        as [[blocks | e] w2]; cbn [fst snd] in *.
      * split; [exact (only_prints_trans _ _ _ Hprint Hquiet) |]. split.
        -- intros blocks' Hb.
           rewrite <- (Hblocks blocks eq_refl).
           unfold empty_block. cbn [fst snd].
           injection Hb as <-. reflexivity.
        -- intros _. eexists. reflexivity.
      * split; [exact (only_prints_trans _ _ _ Hprint Hquiet) |]. split.
        -- intros blocks Hb. discriminate Hb.
        -- intro Hacc. destruct (Hreturns Hacc) as [blocks Hb].
           discriminate Hb.
Qed.

(** A text whose sections are all short: at most one call, the merge
    request, and no sleep. *)
Lemma short_sections_run (text : str) (w : world) :
  Forall short_section (split_into_sections text) ->
  let merged := join [NL] (map empty_block (split_into_sections text)) in
  let run :=
    summarize_text_by_sections service unicode_lower console clock text w in
  sleep_log (snd run) = sleep_log w /\
  current_key_index (snd run) = current_key_index w /\
  gemini_model (snd run) = gemini_model w /\
  (call_log (snd run) = call_log w \/
   call_log (snd run) = (gemini_model w, final_prompt merged) :: call_log w) /\
  (forall summary,
     fst run = Return summary ->
     call_log (snd run)
       = (gemini_model w, final_prompt merged) :: call_log w /\
     (summary = merged \/
      exists r,
        service (calls w) (gemini_model w) (final_prompt merged)
          = Responds r /\
        truthy (response_text r) = true /\
        summary = response_text r)) /\
  (accepts console -> exists summary, fst run = Return summary).
Proof.
  intro Hshort. cbv zeta.
  destruct (summarize_each_short _ Hshort w) as (Hquiet & Hblocks & Hreturns).
  unfold summarize_text_by_sections, bind.
  destruct (summarize_each service unicode_lower console clock
                           (split_into_sections text) w)
    as [[blocks | e] w1]; cbn [fst snd] in *.
  2:{ destruct Hquiet as (Hc & Hm & Hl & Hs).
      repeat (split; [assumption || (left; assumption) |]). split.
      - intros summary H. discriminate H.
      - intro Hacc. destruct (Hreturns Hacc) as [blocks H]. discriminate H. }
  rewrite (Hblocks blocks eq_refl).
  set (merged := join [NL] (map empty_block (split_into_sections text))).
  destruct (merge_call_run (final_prompt merged) w1)
    as (Hcall & Hsleep & Hcursor & Hmodel & Hfinal & Hmerge).
  destruct Hquiet as (Hc & Hm & Hl & Hs).
  unfold calls in *. rewrite Hl, Hm in *.
  destruct (merge_call service console (final_prompt merged) w1)
    as [[final | e] w2]; cbn [fst snd] in *.
  - assert (Hw : snd (match final with
                      | Some final_summary => ret final_summary
                      | None => ret merged
                      end w2) = w2) by (destruct final; reflexivity).
    rewrite Hw.
    split; [congruence |]. split; [congruence |]. split; [congruence |].
    split; [right; exact Hcall |]. split.
    + intros summary Hsummary. split; [exact Hcall |].
      destruct (Hfinal final eq_refl) as [-> | (r & Hr & Ht & ->)].
      * left. unfold ret in Hsummary. cbn [fst] in Hsummary. congruence.
      * right. exists r. unfold ret in Hsummary. cbn [fst] in Hsummary.
        split; [exact Hr |]. split; [exact Ht | congruence].
    + intros _. destruct final; eexists; reflexivity.
  - split; [congruence |]. split; [congruence |]. split; [congruence |].
    split; [right; exact Hcall |]. split.
    + intros summary H. discriminate H.
    + intro Hacc. destruct (Hmerge Hacc) as [final H]. discriminate H.
Qed.


End Cost.

Section BlankDocument.

Variable service : nat -> nat -> str -> outcome.
Variable unicode_lower : str -> str.
Variable console : list str -> str -> option exn.
Variable clock : list Z -> Z -> option exn.
Variable splitext : str -> str * str.
Variable fitz_open : str -> result (list str).
Variable docx_Document : str -> result (list str).
Variable open_read : str -> result str.


End BlankDocument.



(** ** What the pipeline can raise *)

Lemma fails_at_print_ret console {A} (a : A) : fails_at_print console (ret a).
Proof. intros w e w' H. discriminate H. Qed.

Lemma fails_at_print_bind console {A B} (m : M A) (k : A -> M B) :
  fails_at_print console m -> (forall a, fails_at_print console (k a)) ->
  fails_at_print console (bind m k).
Proof.
  intros Hm Hk w e w'. unfold bind.
  destruct (m w) as [[a | e1] w1] eqn:Hrun.
  - apply Hk.
  - intro H. apply (Hm w e1 w1) in Hrun. congruence.
Qed.

(** Whatever the body of a [try] raises, only what its handler raises
    leaves it. *)
Lemma fails_at_print_try_except console {A} (body : M A)
    (handler : exn -> M A) :
  (forall e, fails_at_print console (handler e)) ->
  fails_at_print console (try_except body handler).
Proof.
  intros Hh w e w'. unfold try_except.
  destruct (body w) as [[a | e1] w1].
  - intro H. discriminate H.
  - apply Hh.
Qed.

Lemma fails_at_print_print console (text : str) :
  fails_at_print console (print console text).
Proof.
  intros w e w'. unfold print.
  destruct (console (print_log w) text) as [e1 |] eqn:Hc.
  - intro H. exists (print_log w), text. congruence.
  - intro H. discriminate H.
Qed.

Lemma fails_at_print_switch_to_next_key console :
  fails_at_print console (switch_to_next_key console).
Proof.
  intros w e w'. unfold switch_to_next_key, bind.
  destruct (_ <? _)%nat; [| intro H; discriminate H].
  pose proof (fails_at_print_print console
                (switching_message (current_key_index w + 1))
                (with_cursor (current_key_index w + 1) w)) as Hp.
  world_simpl.
  destruct (print console _ _) as [[[] | e1] w1].
  - intro H. discriminate H.
  - intro H. apply (Hp e w'). congruence.
Qed.

Lemma fails_at_print_time_sleep console clock (secs : Z) :
  sleeps clock secs -> fails_at_print console (time_sleep clock secs).
Proof.
  intros Hs w e w'. rewrite time_sleep_sleeps by exact Hs.
  intro H. discriminate H.
Qed.

Create HintDb failures.
#[local] Hint Resolve fails_at_print_ret fails_at_print_bind
  fails_at_print_try_except fails_at_print_print
  fails_at_print_switch_to_next_key fails_at_print_time_sleep
  sleeps_retry_delay : failures.

Section Failures.

Variable service : nat -> nat -> str -> outcome.
Variable unicode_lower : str -> str.
Variable console : list str -> str -> option exn.
Variable clock : list Z -> Z -> option exn.
Variable splitext : str -> str * str.
Variable fitz_open : str -> result (list str).
Variable docx_Document : str -> result (list str).
Variable open_read : str -> result str.

Lemma fails_at_print_attempt (p : str) (attempt_no : nat) (retries : Z) :
  fails_at_print console
    (attempt service unicode_lower console p attempt_no retries).
Proof.
  unfold attempt. apply fails_at_print_try_except. intro e.
  apply fails_at_print_bind.
  - destruct (contains _ _); auto with failures.
  - intros []; auto with failures.
Qed.

Lemma fails_at_print_attempts (p : str) (retries : Z) (rounds : list nat)
    (delay : Z) :
  sleeps clock delay ->
  fails_at_print console
    (attempts service unicode_lower console clock p retries rounds delay).
Proof.
  intro Hd. induction rounds as [| attempt_no rounds IH]; cbn [attempts].
  - apply fails_at_print_ret.
  - apply fails_at_print_bind; [apply fails_at_print_attempt |].
    intros [summary | |]; auto with failures.
Qed.

Lemma fails_at_print_summarize_section (section_text : str)
    (retries delay : Z) :
  sleeps clock delay ->
  fails_at_print console
    (summarize_section service unicode_lower console clock section_text
                       retries delay).
Proof.
  intro Hd. unfold summarize_section.
  destruct (_ <? _)%nat;
    [apply fails_at_print_ret | now apply fails_at_print_attempts].
Qed.

Lemma fails_at_print_summarize_each (sections : list section) :
  fails_at_print console
    (summarize_each service unicode_lower console clock sections).
Proof.
  induction sections as [| [heading content] rest IH]; cbn [summarize_each].
  - apply fails_at_print_ret.
  - apply fails_at_print_bind; [apply fails_at_print_print |]. intros _.
    apply fails_at_print_bind;
      [apply fails_at_print_summarize_section, sleeps_retry_delay |].
    intro summary. apply fails_at_print_bind; [exact IH |].
    intro blocks. apply fails_at_print_ret.
Qed.

Lemma fails_at_print_summarize_text_by_sections (text : str) :
  fails_at_print console
    (summarize_text_by_sections service unicode_lower console clock text).
Proof.
  unfold summarize_text_by_sections.
  apply fails_at_print_bind; [apply fails_at_print_summarize_each |].
  intro blocks. apply fails_at_print_bind.
  - unfold merge_call. apply fails_at_print_try_except. intro e.
    auto with failures.
  - intros [final |]; apply fails_at_print_ret.
Qed.


End Failures.


(** ** On a standard output encoded in UTF-8 *)

Lemma no_surrogates_app (s t : str) :
  no_surrogates s -> no_surrogates t -> no_surrogates (s ++ t).
Proof.
  unfold no_surrogates. intros Hs Ht.
  rewrite forallb_app, Hs, Ht. reflexivity.
Qed.

Lemma no_surrogates_incl (s t : str) :
  incl s t -> no_surrogates t -> no_surrogates s.
Proof.
  unfold no_surrogates. intros Hi Ht. apply forallb_forall. intros c Hc.
  eapply forallb_forall in Ht; [exact Ht | now apply Hi].
Qed.

Lemma incl_lstrip (s : str) : incl (lstrip s) s.
Proof.
  induction s as [| c s IH]; cbn [lstrip]; [apply incl_refl |].
  destruct (isspace c); [now apply incl_tl | apply incl_refl].
Qed.

Lemma incl_strip (s : str) : incl (strip s) s.
Proof.
  unfold strip, rstrip. intros c Hc.
  apply incl_lstrip. apply in_rev. apply incl_lstrip. now apply in_rev.
Qed.

Lemma no_surrogates_strip (s : str) :
  no_surrogates s -> no_surrogates (strip s).
Proof. apply no_surrogates_incl, incl_strip. Qed.

(** A piece of a text has the characters of the text. *)
Lemma no_surrogates_piece (pieces : list str) (piece : str) :
  In piece pieces -> no_surrogates (List.concat pieces) ->
  no_surrogates piece.
Proof.
  intro Hin. apply no_surrogates_incl. intros c Hc.
  apply in_concat. now exists piece.
Qed.

(** A text without surrogates is written. *)
Lemma utf8_console_takes (text : str) :
  no_surrogates text -> takes utf8_console text.
Proof.
  intros Ht written. unfold utf8_console, strict_console.
  enough (H : forall i, first_refused utf8_encodable text i = None)
    by now rewrite H.
  unfold no_surrogates in Ht. induction text as [| c text IH]; intro i.
  - reflexivity.
  - cbn [forallb] in Ht. apply andb_prop in Ht as [Hc Ht].
    cbn [first_refused]. rewrite Hc. now apply IH.
Qed.

Lemma returns_print_taken console (text : str) :
  takes console text -> returns (print console text).
Proof.
  intros Hc w. unfold print. rewrite Hc. eexists; eexists; reflexivity.
Qed.

(** The announcement of a switch inside the pool has no surrogate. *)
Lemma returns_switch_to_next_key_utf8 :
  returns (switch_to_next_key utf8_console).
Proof.
  intro w. unfold switch_to_next_key, bind.
  destruct (Nat.ltb_spec (current_key_index w + 1)
                         (List.length GEMINI_API_KEYS)) as [Hlt | Hge];
    [| eexists; eexists; reflexivity].
  unfold print. world_simpl.
  assert (Hcursor : current_key_index w + 1 = 1 \/
                    current_key_index w + 1 = 2)
    by (change (List.length GEMINI_API_KEYS) with 3 in Hlt; lia).
  assert (Htakes : takes utf8_console
                     (switching_message (current_key_index w + 1))).
  { apply utf8_console_takes.
    destruct Hcursor as [-> | ->]; vm_compute; reflexivity. }
  rewrite Htakes. eexists; eexists; reflexivity.
Qed.

(** The state of the splitter loop keeps headings without surrogates. *)
Lemma fold_headings_no_surrogates (parts : list str) :
  Forall no_surrogates parts ->
  forall heading buffer sections,
    no_surrogates heading ->
    Forall (fun sec : section => no_surrogates (fst sec)) sections ->
    Forall (fun sec : section => no_surrogates (fst sec))
      (let '(current_heading, buffer', done) :=
         fold_left split_step parts (heading, buffer, sections) in
       flush current_heading buffer' done).
Proof.
  assert (Hflush : forall heading buffer sections,
            no_surrogates heading ->
            Forall (fun sec : section => no_surrogates (fst sec)) sections ->
            Forall (fun sec : section => no_surrogates (fst sec))
                   (flush heading buffer sections)).
  { intros heading buffer sections Hh Hs. unfold flush.
    destruct (truthy buffer); [| exact Hs].
    apply Forall_app. split; [exact Hs |].
    constructor; [exact Hh | constructor]. }
  induction 1 as [| part parts Hpart _ IH];
    intros heading buffer sections Hh Hs.
  - cbn [fold_left]. now apply Hflush.
  - cbn [fold_left]. destruct (pattern_match (strip part)) eqn:Hm.
    + rewrite split_step_heading by exact Hm.
      apply IH; [now apply no_surrogates_strip | now apply Hflush].
    + rewrite split_step_text by exact Hm. now apply IH.
Qed.

(** The headings of a text without surrogates have none. *)
Lemma split_into_sections_no_surrogates (text : str) :
  no_surrogates text ->
  Forall (fun sec : section => no_surrogates (fst sec))
         (split_into_sections text).
Proof.
  intro Ht. unfold split_into_sections.
  pose proof (split_from_concat (S (List.length text)) true text []) as Hcat.
  cbn [rev app] in Hcat. fold (pattern_split text) in Hcat.
  destruct (split_from_shape (S (List.length text)) true text [])
    as (t0 & pairs & E).
  fold (pattern_split text) in E.
  assert (Hparts : Forall no_surrogates (pattern_split text)).
  { apply Forall_forall. intros piece Hin.
    apply (no_surrogates_piece (pattern_split text)); [exact Hin |].
    now rewrite Hcat. }
  rewrite E in *.
  apply fold_headings_no_surrogates;
    [exact Hparts | vm_compute; reflexivity | constructor].
Qed.

Section Utf8Console.

Variable service : nat -> nat -> str -> outcome.
Variable unicode_lower : str -> str.
Variable clock : list Z -> Z -> option exn.
Variable splitext : str -> str * str.
Variable fitz_open : str -> result (list str).
Variable docx_Document : str -> result (list str).
Variable open_read : str -> result str.

Hypothesis service_errors_clean :
  forall n credential p e,
    service n credential p = Fails e -> no_surrogates (exn_str e).

(** What is done with an exception of the service in a round of the retry
    loop never raises. *)
Lemma returns_section_handler_utf8 (e : exn) :
  no_surrogates (exn_str e) ->
  returns
    (switched <- (if contains (lit "quota") (lower unicode_lower (exn_str e))
                  then switch_to_next_key utf8_console else ret false) ;;
     if switched then ret Continue
     else print utf8_console (section_error_message e) ;;; ret Sleep).
Proof.
  intro He. apply returns_bind.
  - destruct (contains _ _);
      [apply returns_switch_to_next_key_utf8 | apply returns_ret].
  - intros []; [apply returns_ret |].
    apply returns_bind; [| intro; apply returns_ret].
    apply returns_print_taken, utf8_console_takes.
    unfold section_error_message.
    apply no_surrogates_app; [vm_compute; reflexivity | exact He].
Qed.

Lemma returns_attempt_utf8 (p : str) (attempt_no : nat) (retries : Z) :
  no_surrogates (retrying_message attempt_no retries) ->
  returns (attempt service unicode_lower utf8_console p attempt_no retries).
Proof.
  intros Hretry w. unfold attempt, try_except.
  unfold bind at 1. unfold generate_content.
  destruct (service _ _ _) as [r | e] eqn:Hservice.
  - destruct (truthy (response_text r)); [eexists; eexists; reflexivity |].
    destruct (returns_bind (print utf8_console
                              (retrying_message attempt_no retries))
                (fun _ => ret Sleep)
                (returns_print_taken _ _ (utf8_console_takes _ Hretry))
                (fun _ => returns_ret Sleep)
                (called (gemini_model w, p) w)) as (f & w' & ->).
    now exists f, w'.
  - apply returns_section_handler_utf8.
    exact (service_errors_clean _ _ _ _ Hservice).
Qed.

Lemma returns_attempts_utf8 (p : str) (retries : Z) (rounds : list nat)
    (delay : Z) :
  sleeps clock delay ->
  Forall (fun attempt_no =>
            no_surrogates (retrying_message attempt_no retries)) rounds ->
  returns (attempts service unicode_lower utf8_console clock p retries rounds
                    delay).
Proof.
  intros Hd. induction 1 as [| attempt_no rounds Hretry _ IH]; cbn [attempts].
  - apply returns_ret.
  - apply returns_bind; [now apply returns_attempt_utf8 |].
    intros [summary | |]; auto with returns.
Qed.

Lemma returns_summarize_each_utf8 (sections : list section) :
  Forall (fun sec : section => no_surrogates (fst sec)) sections ->
  returns (summarize_each service unicode_lower utf8_console clock sections).
Proof.
  induction 1 as [| [heading content] rest Hheading _ IH];
    cbn [summarize_each].
  - apply returns_ret.
  - apply returns_bind.
    { apply returns_print_taken, utf8_console_takes.
      unfold section_message.
      apply no_surrogates_app; [vm_compute; reflexivity | exact Hheading]. }
    intros _. apply returns_bind.
    { unfold summarize_section.
      destruct (_ <? _)%nat; [apply returns_ret |].
      apply returns_attempts_utf8; [apply sleeps_retry_delay |].
      change (seq 0 (Z.to_nat 3)) with [0; 1; 2].
      repeat constructor; vm_compute; reflexivity. }
    intro summary. apply returns_bind; [exact IH |].
    intro blocks. apply returns_ret.
Qed.

Lemma returns_merge_call_utf8 (p : str) :
  returns (merge_call service utf8_console p).
Proof.
  intro w. unfold merge_call, try_except.
  unfold bind at 1. unfold generate_content.
  destruct (service _ _ _) as [r | e] eqn:Hservice.
  - destruct (truthy (response_text r)); eexists; eexists; reflexivity.
  - apply returns_bind; [| intro; apply returns_ret].
    apply returns_print_taken, utf8_console_takes.
    unfold merge_error_message.
    apply no_surrogates_app; [vm_compute; reflexivity |].
    exact (service_errors_clean _ _ _ _ Hservice).
Qed.

(** X23. On a standard output encoded in UTF-8, for a document whose extracted
    text has no surrogate code point and a service whose errors have none in
    their texts, every progress message is written: [summarize_document]
    returns a summary, whatever the service answers or raises on any call
    and whatever the state it starts in. *)
Theorem summarize_document_returns_on_utf8 (path text : str) (w : world) :
  read_document unicode_lower splitext fitz_open docx_Document open_read path
    = Return text ->
  no_surrogates text ->
  exists summary w',
    summarize_document service unicode_lower utf8_console clock splitext
                       fitz_open docx_Document open_read path w
      = (Return summary, w').
Proof.
  intros Hread Htext. unfold summarize_document.
  unfold bind at 1. rewrite Hread. cbn [lift].
  revert w. change (returns (summarize_text_by_sections service unicode_lower
                               utf8_console clock text)).
  unfold summarize_text_by_sections.
  apply returns_bind.
  - now apply returns_summarize_each_utf8, split_into_sections_no_surrogates.
  - intro blocks. apply returns_bind; [apply returns_merge_call_utf8 |].
    intros [final |]; apply returns_ret.
Qed.

End Utf8Console.

Lemma summarize_document_returns_on_utf8_witness :
  exists summary w',
    summarize_document stub_merge_fails ascii_only_lower utf8_console
                       sample_clock posix_splitext no_document no_document
                       (one_text two_sections) (lit "data/raw/report.txt")
                       initial_world
      = (Return summary, w').
Proof.
  apply (summarize_document_returns_on_utf8 stub_merge_fails ascii_only_lower
           sample_clock posix_splitext no_document no_document
           (one_text two_sections)
           ltac:(intros n credential p e; unfold stub_merge_fails, answer;
                 destruct (n <? 2)%nat; intro H;
                 [discriminate H | injection H as <-; vm_compute; reflexivity])
           (lit "data/raw/report.txt") two_sections initial_world).
  - vm_compute. reflexivity.
  - vm_compute. reflexivity.
Defined.
